(** * Task manager with local persistence: a shallow embedding

    The development follows [react_task_app.jsx]: the [useLocalStorage]
    hook (hooks/useLocalStorage.js), the [TaskManager] page
    (pages/TaskManager.jsx), the theme toggle (context/ThemeContext.jsx)
    and the search page (pages/ApiData.jsx).  The browser services the
    code calls ([String.prototype.trim], [includes], [JSON.parse],
    [JSON.stringify], [localStorage], [Date.now]) are modelled first,
    then the code itself, then the properties. *)

From Stdlib Require Import ZArith NArith List Lia Bool Ascii String.
From Stdlib Require Import DecimalN DecimalFacts DecimalPos Sorted.
From stdpp Require Import base option list gmap.

Open Scope Z_scope.

(** ** JavaScript strings

    A JavaScript string is a sequence of UTF-16 code units. *)

Abbreviation jsstring := (list N).

Fixpoint str (s : string) : jsstring :=
  match s with
  | EmptyString => []
  | String a r => N_of_ascii a :: str r
  end.

(** [WhiteSpace] and [LineTerminator] of ECMAScript, the code units
    that [trim] strips. *)
Definition is_whitespace (c : N) : bool :=
  existsb (N.eqb c)
    [ 9; 10; 11; 12; 13; 32; 160; 5760; 8232; 8233; 8239; 8287; 12288; 65279 ]%N
  || ((8192 <=? c) && (c <=? 8202))%N.

Fixpoint trimStart (s : jsstring) : jsstring :=
  match s with
  | c :: r => if is_whitespace c then trimStart r else s
  | [] => []
  end.

Definition trimEnd (s : jsstring) : jsstring := rev (trimStart (rev s)).

(** [text.trim()] *)
Definition trim (s : jsstring) : jsstring := trimEnd (trimStart s).

(** [ToBoolean] on a string: the empty string is the only falsy one. *)
Definition truthy (s : jsstring) : bool :=
  match s with [] => false | _ :: _ => true end.

(** ** Exceptions *)

Inductive exn := SecurityError | QuotaExceededError | SyntaxError | TypeError.

Inductive result (A : Type) :=
| Ok (a : A)
| Throw (e : exn).
Arguments Ok {A} a.
Arguments Throw {A} e.

Definition bind {A B} (r : result A) (k : A -> result B) : result B :=
  match r with
  | Ok a => k a
  | Throw e => Throw e
  end.

Notation "x <- c1 ;;; c2" := (bind c1 (fun x => c2))
  (at level 100, c1 at next level, right associativity).

(** [try { body } catch (error) { handler }] *)
Definition try_catch {A} (body : result A) (handler : exn -> A) : A :=
  match body with
  | Ok a => a
  | Throw e => handler e
  end.

(** ** JSON

    Values that [JSON.parse] can produce and [JSON.stringify] can print.
    A number is kept as an exact decimal, [Int z] or [Frac m e] for
    [m / 10^e] with [m] not a multiple of ten; on the integers below
    [2^53], where [Date.now()] lies, this is the value JavaScript holds.
    Outside them JavaScript rounds to a binary64 number and prints large
    ones with an exponent, which [parse_number] and [number_text] do
    not follow: the round trips proved below are stated for these
    integers.
    An object is its list of own properties in enumeration order. *)

Inductive number :=
| Int (z : Z)
| Frac (m : Z) (e : positive).

#[warnings="-register-all"]
Inductive json :=
| JNull
| JBool (b : bool)
| JNum (n : number)
| JStr (s : jsstring)
| JArr (elems : list json)
| JObj (props : list (jsstring * json)).

Module JSON.
Local Open Scope N_scope.

Fixpoint uint_units (u : Decimal.uint) : jsstring :=
  match u with
  | Decimal.Nil => []
  | Decimal.D0 r => 48 :: uint_units r
  | Decimal.D1 r => 49 :: uint_units r
  | Decimal.D2 r => 50 :: uint_units r
  | Decimal.D3 r => 51 :: uint_units r
  | Decimal.D4 r => 52 :: uint_units r
  | Decimal.D5 r => 53 :: uint_units r
  | Decimal.D6 r => 54 :: uint_units r
  | Decimal.D7 r => 55 :: uint_units r
  | Decimal.D8 r => 56 :: uint_units r
  | Decimal.D9 r => 57 :: uint_units r
  end.

Definition digits (n : N) : jsstring := uint_units (N.to_uint n).

Definition minus_sign (z : Z) : jsstring := if (z <? 0)%Z then [45] else [].

Definition number_text (n : number) : jsstring :=
  match n with
  | Int z => minus_sign z ++ digits (Z.abs_N z)
  | Frac m e =>
      let ds := digits (Z.abs_N m) in
      let k := Pos.to_nat e in
      let len := length ds in
      minus_sign m ++
      (if (len <=? k)%nat
       then 48 :: 46 :: replicate (k - len) 48 ++ ds
       else take (len - k) ds ++ 46 :: drop (len - k) ds)
  end.

Definition hex_digit (n : N) : N := if n <? 10 then 48 + n else 87 + n.

Definition u_escape (c : N) : jsstring :=
  [ 92; 117; hex_digit (c / 4096 mod 16); hex_digit (c / 256 mod 16);
    hex_digit (c / 16 mod 16); hex_digit (c mod 16) ].

Definition is_high_surrogate (c : N) : bool := (55296 <=? c) && (c <=? 56319).
Definition is_low_surrogate (c : N) : bool := (56320 <=? c) && (c <=? 57343).

(** [QuoteJSONString] without the enclosing quotes. *)
Fixpoint quote_body (s : jsstring) : jsstring :=
  match s with
  | [] => []
  | c :: r =>
      if c =? 34 then 92 :: 34 :: quote_body r
      else if c =? 92 then 92 :: 92 :: quote_body r
      else if c =? 8 then 92 :: 98 :: quote_body r
      else if c =? 12 then 92 :: 102 :: quote_body r
      else if c =? 10 then 92 :: 110 :: quote_body r
      else if c =? 13 then 92 :: 114 :: quote_body r
      else if c =? 9 then 92 :: 116 :: quote_body r
      else if c <? 32 then u_escape c ++ quote_body r
      else if is_high_surrogate c then
        match r with
        | d :: r' =>
            if is_low_surrogate d then c :: d :: quote_body r'
            else u_escape c ++ quote_body r
        | [] => u_escape c
        end
      else if is_low_surrogate c then u_escape c ++ quote_body r
      else c :: quote_body r
  end.

Definition quote (s : jsstring) : jsstring := 34 :: quote_body s ++ [34].

Fixpoint join_comma (l : list jsstring) : jsstring :=
  match l with
  | [] => []
  | [x] => x
  | x :: r => x ++ 44 :: join_comma r
  end.

(** [JSON.stringify(value)] with no replacer and no indentation. *)
Fixpoint stringify (v : json) : jsstring :=
  match v with
  | JNull => str "null"
  | JBool true => str "true"
  | JBool false => str "false"
  | JNum n => number_text n
  | JStr s => quote s
  | JArr l => 91 :: join_comma (map stringify l) ++ [93]
  | JObj l =>
      123 :: join_comma (map (fun kv => quote (fst kv) ++ 58 :: stringify (snd kv)) l)
          ++ [125]
  end.

(** *** [JSON.parse] *)

Definition is_json_ws (c : N) : bool :=
  (c =? 32) || (c =? 9) || (c =? 10) || (c =? 13).

Fixpoint skip_ws (s : jsstring) : jsstring :=
  match s with
  | c :: r => if is_json_ws c then skip_ws r else s
  | [] => []
  end.

Definition is_digit (c : N) : bool := (48 <=? c) && (c <=? 57).

Definition hex_val (c : N) : option N :=
  if is_digit c then Some (c - 48)
  else if (97 <=? c) && (c <=? 102) then Some (c - 87)
  else if (65 <=? c) && (c <=? 70) then Some (c - 55)
  else None.

Definition hex4 (a b c d : N) : option N :=
  x ← hex_val a; y ← hex_val b; z ← hex_val c; w ← hex_val d;
  Some (x * 4096 + y * 256 + z * 16 + w).

Definition unescape (e : N) : option N :=
  if e =? 34 then Some 34
  else if e =? 92 then Some 92
  else if e =? 47 then Some 47
  else if e =? 98 then Some 8
  else if e =? 102 then Some 12
  else if e =? 110 then Some 10
  else if e =? 114 then Some 13
  else if e =? 116 then Some 9
  else None.

Definition push (c : N) (r : option (jsstring * jsstring)) :
    option (jsstring * jsstring) :=
  match r with
  | Some (body, rest) => Some (c :: body, rest)
  | None => None
  end.

(** The characters of a string literal after its opening quote, with the
    input that follows the closing quote. *)
Fixpoint parse_chars (s : jsstring) : option (jsstring * jsstring) :=
  match s with
  | [] => None
  | c :: r =>
      if c =? 34 then Some ([], r)
      else if c =? 92 then
        match r with
        | [] => None
        | e :: r1 =>
            if e =? 117 then
              match r1 with
              | h1 :: h2 :: h3 :: h4 :: r2 =>
                  match hex4 h1 h2 h3 h4 with
                  | Some u => push u (parse_chars r2)
                  | None => None
                  end
              | _ => None
              end
            else
              match unescape e with
              | Some u => push u (parse_chars r1)
              | None => None
              end
        end
      else if c <? 32 then None
      else push c (parse_chars r)
  end.

Fixpoint take_digits (s : jsstring) : list N * jsstring :=
  match s with
  | c :: r =>
      if is_digit c
      then let (ds, rest) := take_digits r in ((c - 48) :: ds, rest)
      else ([], s)
  | [] => ([], [])
  end.

Definition digits_value (ds : list N) : N :=
  fold_left (fun acc d => 10 * acc + d) ds 0.

(** [m * 10^(-k)] as a [number], trailing zeros of [m] removed. *)
Fixpoint shrink (k : nat) (m : Z) : number :=
  match k with
  | O => Int m
  | S k' =>
      if (m mod 10 =? 0)%Z then shrink k' (m / 10)%Z
      else Frac m (Pos.of_nat k)
  end.

Definition decimal (m e : Z) : number :=
  if (m =? 0)%Z then Int 0
  else if (0 <=? e)%Z then Int (m * 10 ^ e)%Z
  else shrink (Z.to_nat (- e)) m.

Definition parse_number (s : jsstring) : option (number * jsstring) :=
  let '(neg, s1) :=
    match s with
    | c :: r => if c =? 45 then (true, r) else (false, s)
    | [] => (false, s)
    end in
  let '(ip, s2) := take_digits s1 in
  match ip with
  | [] => None
  | d :: ds =>
      if (d =? 0) && negb (length ds =? 0)%nat then None
      else
        fr ← match s2 with
             | c :: r =>
                 if c =? 46 then
                   let '(fp, s3) := take_digits r in
                   match fp with [] => None | _ => Some (fp, s3) end
                 else Some ([], s2)
             | [] => Some ([], s2)
             end;
        ex ← match fr.2 with
             | c :: r =>
                 if (c =? 101) || (c =? 69) then
                   let '(sg, r1) :=
                     match r with
                     | g :: r' =>
                         if g =? 45 then (true, r')
                         else if g =? 43 then (false, r')
                         else (false, r)
                     | [] => (false, r)
                     end in
                   let '(ep, s4) := take_digits r1 in
                   match ep with
                   | [] => None
                   | _ =>
                       let e := Z.of_N (digits_value ep) in
                       Some (if sg then (- e)%Z else e, s4)
                   end
                 else Some (0%Z, fr.2)
             | [] => Some (0%Z, fr.2)
             end;
        let m := Z.of_N (digits_value (ip ++ fr.1)) in
        Some (decimal (if neg then (- m)%Z else m)
                      (ex.1 - Z.of_nat (length fr.1))%Z,
              ex.2)
  end.

Fixpoint expect (lit s : jsstring) : option jsstring :=
  match lit, s with
  | [], _ => Some s
  | a :: lit', c :: r => if a =? c then expect lit' r else None
  | _ :: _, [] => None
  end.

(** An array index: the canonical decimal text of an integer below
    [2^32 - 1].  Such keys are enumerated first, in ascending order. *)
Definition array_index (k : jsstring) : option N :=
  if forallb is_digit k && negb (length k =? 0)%nat
     && (length k <=? 10)%nat then
    let n := digits_value (map (fun c => c - 48) k) in
    if bool_decide (digits n = k) && (n <? 4294967295) then Some n else None
  else None.

Fixpoint replace_prop (k : jsstring) (v : json) (o : list (jsstring * json)) :
    option (list (jsstring * json)) :=
  match o with
  | [] => None
  | (k', v') :: r =>
      if bool_decide (k = k') then Some ((k, v) :: r)
      else o' ← replace_prop k v r; Some ((k', v') :: o')
  end.

Fixpoint insert_index (n : N) (k : jsstring) (v : json)
    (o : list (jsstring * json)) : list (jsstring * json) :=
  match o with
  | [] => [(k, v)]
  | (k', v') :: r =>
      match array_index k' with
      | Some n' =>
          if n' <? n then (k', v') :: insert_index n k v r
          else (k, v) :: o
      | None => (k, v) :: o
      end
  end.

(** [CreateDataProperty(obj, key, value)] on an ordinary object. *)
Definition set_prop (k : jsstring) (v : json) (o : list (jsstring * json)) :
    list (jsstring * json) :=
  match replace_prop k v o with
  | Some o' => o'
  | None =>
      match array_index k with
      | Some n => insert_index n k v o
      | None => o ++ [(k, v)]
      end
  end.

Definition make_object (members : list (jsstring * json)) : json :=
  JObj (fold_left (fun o kv => set_prop kv.1 kv.2 o) members []).

(** Recursive descent on the JSON grammar; [fuel] bounds the depth of
    the calls, and [parse] supplies more than the input can use. *)
Fixpoint parse_value (fuel : nat) (s : jsstring) : option (json * jsstring) :=
  match fuel with
  | O => None
  | S n =>
      match skip_ws s with
      | [] => None
      | c :: r =>
          if c =? 34 then
            '(body, rest) ← parse_chars r; Some (JStr body, rest)
          else if c =? 91 then
            match skip_ws r with
            | c' :: r' =>
                if c' =? 93 then Some (JArr [], r')
                else '(l, rest) ← parse_elements n r; Some (JArr l, rest)
            | [] => None
            end
          else if c =? 123 then
            match skip_ws r with
            | c' :: r' =>
                if c' =? 125 then Some (JObj [], r')
                else '(l, rest) ← parse_members n r; Some (make_object l, rest)
            | [] => None
            end
          else if c =? 110 then rest ← expect (str "ull") r; Some (JNull, rest)
          else if c =? 116 then rest ← expect (str "rue") r; Some (JBool true, rest)
          else if c =? 102 then rest ← expect (str "alse") r; Some (JBool false, rest)
          else '(x, rest) ← parse_number (c :: r); Some (JNum x, rest)
      end
  end
with parse_elements (fuel : nat) (s : jsstring) : option (list json * jsstring) :=
  match fuel with
  | O => None
  | S n =>
      '(v, r) ← parse_value n s;
      match skip_ws r with
      | c :: r' =>
          if c =? 44 then '(l, rest) ← parse_elements n r'; Some (v :: l, rest)
          else if c =? 93 then Some ([v], r')
          else None
      | [] => None
      end
  end
with parse_members (fuel : nat) (s : jsstring) :
    option (list (jsstring * json) * jsstring) :=
  match fuel with
  | O => None
  | S n =>
      match skip_ws s with
      | q :: r0 =>
          if q =? 34 then
            '(k, r1) ← parse_chars r0;
            match skip_ws r1 with
            | c1 :: r2 =>
                if c1 =? 58 then
                  '(v, r) ← parse_value n r2;
                  match skip_ws r with
                  | c :: r' =>
                      if c =? 44 then
                        '(l, rest) ← parse_members n r'; Some ((k, v) :: l, rest)
                      else if c =? 125 then Some ([(k, v)], r')
                      else None
                  | [] => None
                  end
                else None
            | [] => None
            end
          else None
      | [] => None
      end
  end.

(** [JSON.parse(text)] with no reviver: the value, or a [SyntaxError]. *)
Definition parse (text : jsstring) : result json :=
  match parse_value (2 * length text + 2) text with
  | Some (v, rest) =>
      match skip_ws rest with
      | [] => Ok v
      | _ :: _ => Throw SyntaxError
      end
  | None => Throw SyntaxError
  end.

End JSON.

(** ** [localStorage]

    The origin's storage area: a map from keys to values.  The browser
    refuses every access when storage is disabled ([SecurityError]) and
    refuses a write that would take the area over its quota
    ([QuotaExceededError]).  [writes] counts the completed [setItem]
    calls. *)

Module Storage.

Record t := mk {
  items : gmap jsstring jsstring;
  available : bool;
  quota : N;
  writes : nat
}.

Definition used (m : gmap jsstring jsstring) : N :=
  map_fold (fun k v n => N.of_nat (length k) + N.of_nat (length v) + n)%N 0%N m.

Definition getItem (ls : t) (key : jsstring) : result (option jsstring) :=
  if available ls then Ok (items ls !! key) else Throw SecurityError.

Definition setItem (ls : t) (key value : jsstring) : result t :=
  if available ls then
    let items' := <[key := value]> (items ls) in
    if (used items' <=? quota ls)%N
    then Ok {| items := items'; available := available ls;
               quota := quota ls; writes := S (writes ls) |}
    else Throw QuotaExceededError
  else Throw SecurityError.

End Storage.

(** ** hooks/useLocalStorage.js *)

(** The initialiser given to [useState]:
    [try { const item = localStorage.getItem(key);
           return item ? JSON.parse(item) : initialValue; }
     catch (error) { return initialValue; }] *)
Definition useLocalStorage_initialState
    (ls : Storage.t) (key : jsstring) (initialValue : json) : json :=
  try_catch
    (item <- Storage.getItem ls key ;;;
     match item with
     | Some text => if truthy text then JSON.parse text else Ok initialValue
     | None => Ok initialValue
     end)
    (fun error => initialValue).

(** The effect, run after a commit in which [key] or [storedValue]
    changed: [localStorage.setItem(key, JSON.stringify(storedValue))]. *)
Definition useLocalStorage_effect
    (ls : Storage.t) (key : jsstring) (storedValue : json) : result Storage.t :=
  Storage.setItem ls key (JSON.stringify storedValue).

(** ** pages/TaskManager.jsx *)

Module Task.
Record t := mk { id : Z; text : jsstring; completed : bool }.
End Task.
Abbreviation Task := Task.t.

(** The JavaScript value of a task and of the task array.  The
    properties are in the order of the object literal in [addTask];
    the spread in [toggleTask] keeps that order. *)
Definition task_value (t : Task) : json :=
  JObj [ (str "id", JNum (Int (Task.id t)));
         (str "text", JStr (Task.text t));
         (str "completed", JBool (Task.completed t)) ].

Definition tasks_value (l : list Task) : json := JArr (map task_value l).

Module TaskManager.

Inductive Filter := All | Active | Completed.

(** The three pieces of component state. *)
Record State := mkState {
  tasks : list Task;
  text : jsstring;
  filter : Filter
}.

(** A call of one of the state setters; React applies the queued calls
    when the handler has returned. *)
Inductive Update :=
| setTasks (v : list Task)
| setText (v : jsstring)
| setFilter (v : Filter).

Definition tasksKey : jsstring := str "tasks".

(** [if (text.trim()) { setTasks([...tasks, { id: Date.now(), text,
    completed: false }]); setText(''); }], where [now] is the value
    [Date.now()] returns. *)
Definition addTask (now : Z) (st : State) : list Update :=
  if truthy (trim (text st)) then
    [ setTasks (tasks st ++
        [ {| Task.id := now; Task.text := text st; Task.completed := false |} ]);
      setText [] ]
  else [].

(** [setTasks(tasks.map(t => t.id === id
       ? { ...t, completed: !t.completed } : t))] *)
Definition toggleTask (id : Z) (st : State) : list Update :=
  [ setTasks (map (fun t =>
      if Task.id t =? id
      then {| Task.id := Task.id t; Task.text := Task.text t;
              Task.completed := negb (Task.completed t) |}
      else t) (tasks st)) ].

(** [setTasks(tasks.filter(t => t.id !== id))] *)
Definition deleteTask (id : Z) (st : State) : list Update :=
  [ setTasks (List.filter (fun t => negb (Task.id t =? id)) (tasks st)) ].

(** [tasks.filter(t => filter === 'All' ? true
       : filter === 'Active' ? !t.completed : t.completed)] *)
Definition filteredTasks (st : State) : list Task :=
  List.filter (fun t =>
    match filter st with
    | All => true
    | Active => negb (Task.completed t)
    | Completed => Task.completed t
    end) (tasks st).

(** What the user can do on the page. *)
Inductive Event :=
| Input (value : jsstring)
| ClickAdd (now : Z)
| ClickFilter (f : Filter)
| ClickToggle (id : Z)
| ClickDelete (id : Z).

Definition handler (ev : Event) (st : State) : list Update :=
  match ev with
  | Input value => [ setText value ]
  | ClickAdd now => addTask now st
  | ClickFilter f => [ setFilter f ]
  | ClickToggle id => toggleTask id st
  | ClickDelete id => deleteTask id st
  end.

Definition apply (st : State) (u : Update) : State :=
  match u with
  | setTasks v => {| tasks := v; text := text st; filter := filter st |}
  | setText v => {| tasks := tasks st; text := v; filter := filter st |}
  | setFilter v => {| tasks := tasks st; text := text st; filter := v |}
  end.

Definition commit (us : list Update) (st : State) : State :=
  fold_left apply us st.

(** The pure part of an event: the state of the next render. *)
Definition handle (ev : Event) (st : State) : State :=
  commit (handler ev st) st.

(** [setTasks] is always given a fresh array, so the dependency
    [storedValue] of the effect has changed exactly when it was called. *)
Definition storedValue_changed (us : list Update) : bool :=
  existsb (fun u => match u with setTasks _ => true | _ => false end) us.

Record World := mkWorld { storage : Storage.t; ui : State }.

(** One event, from the handler to the effects of the commit it
    causes. *)
Definition step (ev : Event) (w : World) : result World :=
  let us := handler ev (ui w) in
  let st' := commit us (ui w) in
  if storedValue_changed us then
    ls' <- useLocalStorage_effect (storage w) tasksKey (tasks_value (tasks st')) ;;;
    Ok {| storage := ls'; ui := st' |}
  else Ok {| storage := storage w; ui := st' |}.

Fixpoint run (evs : list Event) (w : World) : result World :=
  match evs with
  | [] => Ok w
  | ev :: evs' => w' <- step ev w ;;; run evs' w'
  end.

(** *** The first render, on whatever value the hook returned *)

(** [o.k] on a value; [None] is [undefined]. *)
Definition get (o : json) (k : jsstring) : result (option json) :=
  match o with
  | JNull => Throw TypeError
  | JObj props => Ok (snd <$> List.find (fun kv => bool_decide (kv.1 = k)) props)
  | _ => Ok None
  end.

Definition ToBoolean (v : option json) : bool :=
  match v with
  | None | Some JNull => false
  | Some (JBool b) => b
  | Some (JNum (Int z)) => negb (z =? 0)
  | Some (JNum (Frac _ _)) => true
  | Some (JStr s) => truthy s
  | Some (JArr _) | Some (JObj _) => true
  end.

Fixpoint filter_with (cb : json -> result bool) (l : list json) :
    result (list json) :=
  match l with
  | [] => Ok []
  | x :: r =>
      keep <- cb x ;;;
      r' <- filter_with cb r ;;;
      Ok (if keep then x :: r' else r')
  end.

(** The expression of [filteredTasks] when [tasks] is an arbitrary
    value: only an array has a [filter] method. *)
Definition filteredTasks_of (tasks : json) (filter : Filter) :
    result (list json) :=
  match tasks with
  | JArr l =>
      filter_with (fun t =>
        match filter with
        | All => Ok true
        | Active => c <- get t (str "completed") ;;; Ok (negb (ToBoolean c))
        | Completed => c <- get t (str "completed") ;;; Ok (ToBoolean c)
        end) l
  | _ => Throw TypeError
  end.

(** Mounting the component: the hook computes its initial state, the
    body filters it with [filter = 'All'], then the effect runs.  The
    cards built from the filtered list are not part of the model, and
    the effect is the one of a production build: under
    [React.StrictMode] a development build runs it a second time, with
    the same value. *)
Definition mount (ls : Storage.t) : result (json * Storage.t) :=
  let storedValue := useLocalStorage_initialState ls tasksKey (JArr []) in
  _ <- filteredTasks_of storedValue All ;;;
  ls' <- useLocalStorage_effect ls tasksKey storedValue ;;;
  Ok (storedValue, ls').

(** Typing [value] in the input, then pressing Add at clock reading
    [now]: the [addTask(text)] of the specification. *)
Definition add (value : jsstring) (now : Z) (st : State) : State :=
  handle (ClickAdd now) (handle (Input value) st).

Definition add_all (calls : list (jsstring * Z)) (st : State) : State :=
  fold_left (fun st c => add c.1 c.2 st) calls st.

Definition ids (st : State) : list Z := map Task.id (tasks st).

(** The events that call [setTasks]. *)
Definition mutating (ev : Event) (st : State) : Prop :=
  match ev with
  | ClickAdd _ => trim (text st) <> []
  | ClickToggle _ | ClickDelete _ => True
  | Input _ | ClickFilter _ => False
  end.

(** What the store holds under the tasks key. *)
Definition persisted (ls : Storage.t) : option jsstring :=
  Storage.items ls !! tasksKey.

Definition in_sync (w : World) : Prop :=
  persisted (storage w) = Some (JSON.stringify (tasks_value (tasks (ui w)))).

(** The tasks that carry the id [i]. *)
Definition carrying (i : Z) (st : State) : list Task :=
  List.filter (fun t => Task.id t =? i) (tasks st).

End TaskManager.

(** [r] is exactly the elements of [l] that satisfy [P], in the order of
    [l]: a subsequence of [l], all of whose elements satisfy [P], that
    contains every such subsequence. *)
Definition exactly_those (P : Task -> Prop) (l r : list Task) : Prop :=
  sublist r l /\ Forall P r /\
  forall s, sublist s l -> Forall P s -> sublist s r.

Import TaskManager.

(** ** More of the task page *)

(** The number of [setTasks] calls in a run of events from [st]. *)
Fixpoint setTasks_calls (evs : list Event) (st : State) : nat :=
  match evs with
  | [] => 0
  | ev :: evs' =>
      ((if storedValue_changed (handler ev st) then 1 else 0)
       + setTasks_calls evs' (handle ev st))%nat
  end.

(** What identifies a task for the user: its id and its text. *)
Definition labels (st : State) : list (Z * jsstring) :=
  map (fun t => (Task.id t, Task.text t)) (tasks st).

(** The view of the state under the filter [f]. *)
Definition view (f : Filter) (st : State) : list Task :=
  filteredTasks (handle (ClickFilter f) st).

Definition accepted (c : jsstring * Z) : bool := truthy (trim c.1).

(** The integers that a JavaScript number holds exactly and that
    [JSON.stringify] prints digit for digit and [JSON.parse] reads back
    as they are: those strictly between [-2^53] and [2^53].  Every value
    of [Date.now()] is one of them. *)
Definition safe_integer (z : Z) : Prop := - 2 ^ 53 < z < 2 ^ 53.

Definition safe_ids (ts : list Task) : Prop :=
  Forall (fun t => safe_integer (Task.id t)) ts.

(** A run of events in which every Add happens at such a reading. *)
Definition safe_clock (evs : list Event) : Prop :=
  Forall (fun ev => match ev with
                    | ClickAdd now => safe_integer now
                    | _ => True
                    end) evs.

(** ** context/ThemeContext.jsx *)

Module ThemeContext.

(** [useState('light')] *)
Definition initial : jsstring := str "light".

(** [setTheme(theme === 'light' ? 'dark' : 'light')], with the [theme]
    of the current render. *)
Definition toggleTheme (theme : jsstring) : jsstring :=
  if bool_decide (theme = str "light") then str "dark" else str "light".

(** The [className] of the wrapping [div] after [n] clicks on the
    button of the navigation bar, one render after each click. *)
Definition className (n : nat) : jsstring := Nat.iter n toggleTheme initial.

End ThemeContext.

(** ** pages/ApiData.jsx *)

(** [s.startsWith(q)] and [s.includes(q)] *)
Fixpoint startsWith (s q : jsstring) : bool :=
  match q, s with
  | [], _ => true
  | c :: q', d :: s' => (c =? d)%N && startsWith s' q'
  | _ :: _, [] => false
  end.

Fixpoint includes (s q : jsstring) : bool :=
  startsWith s q ||
  match s with
  | [] => false
  | _ :: s' => includes s' q
  end.

Module ApiData.
Section Page.

(** [String.prototype.toLowerCase].  Its case mapping is a table of the
    Unicode standard; the page is modelled for an arbitrary mapping. *)
Variable toLowerCase : jsstring -> jsstring.

(** [data], [loading], [error] (where [None] is [null]) and [query]. *)
Record State := mkState {
  data : json;
  loading : bool;
  error : option exn;
  query : jsstring
}.

(** [useState([])], [useState(true)], [useState(null)], [useState('')] *)
Definition initial : State := mkState (JArr []) true None [].

(** How the request ends: [res.json()] resolves with the parsed body, or
    [fetch] or [res.json()] rejects. *)
Inductive Outcome :=
| Resolved (body : json)
| Rejected (reason : exn).

(** [.then(res => res.json()).then(setData).catch(setError)
     .finally(() => setLoading(false))]: the state once the chain has
    run. *)
Definition settle (o : Outcome) (st : State) : State :=
  match o with
  | Resolved body =>
      {| data := body; loading := false; error := error st; query := query st |}
  | Rejected reason =>
      {| data := data st; loading := false; error := Some reason;
         query := query st |}
  end.

(** [onChange={(e) => setQuery(e.target.value)}] *)
Definition setQuery (value : jsstring) (st : State) : State :=
  {| data := data st; loading := loading st; error := error st;
     query := value |}.

(** [item.title.toLowerCase().includes(query.toLowerCase())]: reading
    [title] of [null] raises, and only a string has [toLowerCase]. *)
Definition matches (q : jsstring) (item : json) : result bool :=
  title <- get item (str "title") ;;;
  match title with
  | Some (JStr s) => Ok (includes (toLowerCase s) (toLowerCase q))
  | _ => Throw TypeError
  end.

(** [data.filter(item => ...)]: only an array has [filter]. *)
Definition filtered (st : State) : result (list json) :=
  match data st with
  | JArr l => filter_with (matches (query st)) l
  | _ => Throw TypeError
  end.

Inductive View :=
| Loading
| ErrorMessage
| Posts (shown : list json).

(** The body of the component: [filtered] is computed first, then
    [if (loading) ...; if (error) ...; return ...].  [Posts shown]
    stands for the elements returned for the posts [shown]; what React
    makes of these elements is not part of the model. *)
Definition render (st : State) : result View :=
  shown <- filtered st ;;;
  Ok (if loading st then Loading
      else match error st with
           | Some _ => ErrorMessage
           | None => Posts shown
           end).

(** What happens on the page: the user types in the search box, or the
    request ends. *)
Inductive Event :=
| Typed (value : jsstring)
| Settled (o : Outcome).

Definition handle (st : State) (ev : Event) : State :=
  match ev with
  | Typed value => setQuery value st
  | Settled o => settle o st
  end.

Definition run (evs : list Event) (st : State) : State :=
  fold_left handle evs st.

(** An item that [matches] can read: an object whose [title] is a
    string. *)
Definition has_title (item : json) : Prop :=
  exists s, get item (str "title") = Ok (Some (JStr s)).

Definition well_formed (d : json) : Prop :=
  exists l, d = JArr l /\ Forall has_title l.

End Page.
End ApiData.

(** ** Concrete inputs *)

Definition quoted (s : string) : jsstring := 34%N :: str s ++ [34%N].

Definition empty_state : State := mkState [] [] All.

(** An empty area with the usual five million code units of quota. *)
Definition fresh_storage : Storage.t := Storage.mk ∅ true 5000000 0.

(** An area that accepts no more data. *)
Definition full_storage : Storage.t := Storage.mk ∅ true 0 0.

(** An area whose tasks entry is the JSON text of a string. *)
Definition string_storage : Storage.t :=
  Storage.mk {[ tasksKey := quoted "oops" ]} true 5000000 0.

Definition same_tick_calls : list (jsstring * Z) :=
  [ (str "a", 1000); (str "b", 1000) ].

Definition next_tick_calls : list (jsstring * Z) :=
  [ (str "a", 1000); (str "b", 1001) ].

Definition padded : jsstring := str "  a ".

(** A case mapping to try the search page with: the letters A to Z. *)
Definition ascii_lower (s : jsstring) : jsstring :=
  map (fun c => if (65 <=? c)%N && (c <=? 90)%N then (c + 32)%N else c) s.

Definition post (title : string) : json :=
  JObj [ (str "id", JNum (Int 1)); (str "title", JStr (str title)) ].

(** An area whose tasks entry is not JSON. *)
Definition garbled_storage : Storage.t :=
  Storage.mk {[ tasksKey := str "{oops" ]} true 5000000 0.

(** * Properties *)

(** ** Trimming *)

Lemma trimStart_nil (s : jsstring) :
  trimStart s = [] <-> forallb is_whitespace s = true.
Proof.
  induction s as [|c r IH]; simpl; [tauto|].
  destruct (is_whitespace c); simpl; [exact IH|].
  split; discriminate.
Qed.

Lemma trimStart_head (s : jsstring) c r :
  trimStart s = c :: r -> is_whitespace c = false.
Proof.
  induction s as [|a s IH]; simpl; [discriminate|].
  destruct (is_whitespace a) eqn:Ha; [exact IH|].
  intros [= -> _]. exact Ha.
Qed.

Lemma forallb_rev {A} (p : A -> bool) (l : list A) :
  forallb p (rev l) = forallb p l.
Proof.
  induction l as [|a l IH]; simpl; [reflexivity|].
  rewrite forallb_app, IH. simpl. rewrite andb_true_r. apply andb_comm.
Qed.

(** The trimmed form is empty exactly for the empty string and the
    strings of white space only. *)
Lemma trim_nil (s : jsstring) :
  trim s = [] <-> forallb is_whitespace s = true.
Proof.
  unfold trim, trimEnd. split.
  - intros H. apply (f_equal (@rev N)) in H. rewrite rev_involutive in H.
    simpl in H. apply trimStart_nil in H. rewrite forallb_rev in H.
    destruct (trimStart s) as [|c r] eqn:E.
    + apply trimStart_nil. exact E.
    + apply trimStart_head in E. simpl in H. rewrite E in H. discriminate.
  - intros H. apply trimStart_nil in H. rewrite H. reflexivity.
Qed.

Lemma truthy_false (s : jsstring) : truthy s = false <-> s = [].
Proof. destruct s; simpl; split; congruence. Qed.

Lemma truthy_true (s : jsstring) : truthy s = true <-> s <> [].
Proof. destruct s; simpl; split; congruence. Qed.

(** ** The handlers, one equation each *)

Lemma handle_add_blank now st :
  trim (text st) = [] -> handle (ClickAdd now) st = st.
Proof.
  intros H. unfold handle, handler, addTask. rewrite H. reflexivity.
Qed.

Lemma handle_add_accepted now st :
  trim (text st) <> [] ->
  handle (ClickAdd now) st =
    {| tasks := tasks st ++ [Task.mk now (text st) false];
       text := []; filter := filter st |}.
Proof.
  intros H. apply truthy_true in H.
  unfold handle, handler, addTask. rewrite H. reflexivity.
Qed.

Lemma add_accepted value now st :
  trim value <> [] ->
  add value now st =
    {| tasks := tasks st ++ [Task.mk now value false];
       text := []; filter := filter st |}.
Proof.
  intros H. unfold add. rewrite handle_add_accepted; [reflexivity|exact H].
Qed.

Lemma ids_app_one st t :
  map Task.id (tasks st ++ [t]) = ids st ++ [Task.id t].
Proof. unfold ids. apply map_app. Qed.

(** ** Identifiers *)

(** C1, as stated, fails: two accepted calls made at one clock reading
    give two tasks with one id. *)
Lemma C1_same_tick_same_id :
  Forall (fun c => trim c.1 <> []) same_tick_calls /\
  ids (add_all same_tick_calls empty_state) = [1000; 1000] /\
  ~ NoDup (ids (add_all same_tick_calls empty_state)).
Proof.
  split; [|split].
  - repeat constructor; vm_compute; discriminate.
  - reflexivity.
  - change (~ NoDup [1000; 1000]). intros H.
    apply NoDup_cons in H as [H _]. apply H. left.
Qed.

Lemma ids_after_adds (calls : list (jsstring * Z)) (st : State) :
  Forall (fun c => trim c.1 <> []) calls ->
  ids (add_all calls st) = ids st ++ map snd calls.
Proof.
  revert st. induction calls as [|[value now] calls IH]; intros st Hacc.
  - simpl. rewrite app_nil_r. reflexivity.
  - apply Forall_cons in Hacc as [Hv Hacc]. simpl in Hv.
    change (add_all ((value, now) :: calls) st)
      with (add_all calls (add value now st)).
    rewrite (IH _ Hacc), add_accepted by exact Hv.
    unfold ids at 1. cbn [tasks]. rewrite ids_app_one, <- app_assoc.
    reflexivity.
Qed.

Lemma increasing_NoDup (l : list Z) : StronglySorted Z.lt l -> NoDup l.
Proof.
  induction 1 as [|a l Hs IH Hall]; constructor; [|exact IH].
  intros Hin. rewrite Forall_forall in Hall. specialize (Hall a Hin). lia.
Qed.

Lemma increasing_before (l1 l2 : list Z) (x : Z) :
  StronglySorted Z.lt (l1 ++ x :: l2) -> Forall (fun i => i < x) l1.
Proof.
  induction l1 as [|a l1 IH]; cbn [app]; intros Hs; [constructor|].
  apply StronglySorted_inv in Hs as [Hs Hall]. constructor.
  - rewrite Forall_forall in Hall. apply Hall.
    apply list_elem_of_In, in_or_app. right. left. reflexivity.
  - exact (IH Hs).
Qed.

(** C1, amended: the id of every task that [addTask] creates is the
    clock reading of its call, whatever the readings are: after the
    calls the ids are the old ones followed by the readings, equal
    readings included.  When the ids present are pairwise distinct,
    every reading is above all of them and the readings increase
    strictly from call to call, the ids are pairwise distinct and each
    new one is above every id there was before its call. *)
Theorem C1_ids_follow_the_clock (calls : list (jsstring * Z)) (st : State) :
  Forall (fun c => trim c.1 <> []) calls ->
  ids (add_all calls st) = ids st ++ map snd calls /\
  (NoDup (ids st) ->
   Forall (fun c => Forall (fun i => i < c.2) (ids st)) calls ->
   StronglySorted Z.lt (map snd calls) ->
   NoDup (ids (add_all calls st)) /\
   forall before now after,
     map snd calls = before ++ now :: after ->
     Forall (fun i => i < now) (ids st ++ before)).
Proof.
  intros Hacc. split; [exact (ids_after_adds calls st Hacc)|].
  intros Hnd Hgt Hinc. split.
  - rewrite (ids_after_adds calls st Hacc). apply NoDup_app.
    split; [exact Hnd|]. split; [|exact (increasing_NoDup _ Hinc)].
    intros i Hi Hnew. apply list_elem_of_In, in_map_iff in Hnew as (c & Hc & Hin).
    rewrite Forall_forall in Hgt. specialize (Hgt c (proj2 (list_elem_of_In _ _) Hin)).
    rewrite Forall_forall in Hgt. specialize (Hgt i Hi). lia.
  - intros before now after Hsplit. apply Forall_app. split.
    + assert (Hin : In now (map snd calls)).
      { rewrite Hsplit. apply in_or_app. right. left. reflexivity. }
      apply in_map_iff in Hin as (c & Hc & Hin).
      rewrite Forall_forall in Hgt.
      specialize (Hgt c (proj2 (list_elem_of_In _ _) Hin)).
      rewrite Hc in Hgt. exact Hgt.
    + rewrite Hsplit in Hinc. exact (increasing_before _ _ _ Hinc).
Qed.

Lemma C1_ids_follow_the_clock_witness :
  ids (add_all next_tick_calls empty_state) = [] ++ [1000; 1001] /\
  NoDup (ids (add_all next_tick_calls empty_state)).
Proof.
  destruct (C1_ids_follow_the_clock next_tick_calls empty_state)
    as [Hids Hfresh].
  - repeat constructor; vm_compute; discriminate.
  - split; [exact Hids|]. apply Hfresh.
    + constructor.
    + repeat constructor.
    + repeat constructor.
Defined.

(** ** Accepting and refusing text *)

(** C3, as stated, fails: the text is stored as typed, white space
    included. *)
Lemma C3_padding_is_kept :
  trim padded <> [] /\
  map Task.text (tasks (add padded 7 empty_state)) = [padded] /\
  padded <> trim padded /\
  trim padded = str "a".
Proof.
  split; [|split; [|split]]; vm_compute; try reflexivity; discriminate.
Qed.

(** C3, amended: when the trimmed input is not empty, [addTask] appends
    one task whose text is the input as typed (the trimmed form decides
    acceptance only), so every task it creates has a text with a
    non-empty trimmed form. *)
Theorem C3_text_stored_as_typed (value : jsstring) (now : Z) (st : State) :
  trim value <> [] ->
  tasks (add value now st) = tasks st ++ [Task.mk now value false] /\
  (Forall (fun t => trim (Task.text t) <> []) (tasks st) ->
   Forall (fun t => trim (Task.text t) <> []) (tasks (add value now st))).
Proof.
  intros Hv. rewrite add_accepted by exact Hv. simpl.
  split; [reflexivity|].
  intros Hall. apply Forall_app. split; [exact Hall|].
  constructor; [exact Hv|constructor].
Qed.

Lemma C3_text_stored_as_typed_witness :
  tasks (add padded 7 empty_state) = [] ++ [Task.mk 7 padded false] /\
  (Forall (fun t => trim (Task.text t) <> []) [] ->
   Forall (fun t => trim (Task.text t) <> []) (tasks (add padded 7 empty_state))).
Proof.
  apply (C3_text_stored_as_typed padded 7 empty_state).
  vm_compute. discriminate.
Defined.

(** C9: with a text whose trimmed form is empty, pressing Add returns
    normally and leaves everything as it was: the tasks, the input and
    the store, whose count of writes included. *)
Theorem C9_blank_text_is_ignored (now : Z) (w : World) :
  trim (text (ui w)) = [] -> step (ClickAdd now) w = Ok w.
Proof.
  intros H. destruct w as [ls st]. unfold step. simpl in *.
  unfold addTask. rewrite H. reflexivity.
Qed.

Lemma C9_blank_text_is_ignored_witness :
  step (ClickAdd 5) (mkWorld fresh_storage (mkState [] (str "   ") All))
  = Ok (mkWorld fresh_storage (mkState [] (str "   ") All)).
Proof.
  apply (C9_blank_text_is_ignored 5
           (mkWorld fresh_storage (mkState [] (str "   ") All))).
  reflexivity.
Defined.

(** ** The filtered view *)

Lemma filter_exactly_those (p : Task -> bool) (l : list Task) :
  exactly_those (fun t => p t = true) l (List.filter p l).
Proof.
  unfold exactly_those. induction l as [|a l (IHsub & IHall & IHmax)]; simpl.
  - split; [constructor|]. split; [constructor|]. intros s Hs _. exact Hs.
  - destruct (p a) eqn:Ha.
    + split; [apply sublist_skip, IHsub|].
      split; [constructor; assumption|].
      intros s Hs HP. inversion Hs as [|x s' l' Hs'|x s' l' Hs']; subst.
      * apply sublist_skip, IHmax; [exact Hs'|].
        apply Forall_cons in HP as [_ HP]. exact HP.
      * apply sublist_cons, IHmax; assumption.
    + split; [apply sublist_cons, IHsub|].
      split; [exact IHall|].
      intros s Hs HP. inversion Hs as [|x s' l' Hs'|x s' l' Hs']; subst.
      * apply Forall_cons in HP as [HP _]. congruence.
      * apply IHmax; assumption.
Qed.

Lemma filter_all {A} (l : list A) : List.filter (fun _ => true) l = l.
Proof. induction l as [|a l IH]; simpl; congruence. Qed.

(** C6: under [All] the view is the whole sequence; under [Active] it is
    exactly the tasks not completed, in their order; under [Completed]
    exactly the completed ones, in their order. *)
Theorem C6_filtered_view (ts : list Task) (input : jsstring) :
  filteredTasks (mkState ts input All) = ts /\
  exactly_those (fun t => Task.completed t = false) ts
    (filteredTasks (mkState ts input Active)) /\
  exactly_those (fun t => Task.completed t = true) ts
    (filteredTasks (mkState ts input Completed)).
Proof.
  unfold filteredTasks. simpl. split; [apply filter_all|]. split.
  - destruct (filter_exactly_those (fun t => negb (Task.completed t)) ts)
      as (Hsub & Hall & Hmax).
    split; [exact Hsub|]. split.
    + eapply Forall_impl; [exact Hall|]. intros t Ht. simpl in Ht.
      apply negb_true_iff. exact Ht.
    + intros s Hs HP. apply Hmax; [exact Hs|].
      eapply Forall_impl; [exact HP|]. intros t Ht. simpl in Ht.
      apply negb_true_iff. exact Ht.
  - apply (filter_exactly_those Task.completed).
Qed.

Lemma exactly_those_unique (P : Task -> Prop) (l r r' : list Task) :
  exactly_those P l r -> exactly_those P l r' -> r = r'.
Proof.
  intros (Hsub & Hall & Hmax) (Hsub' & Hall' & Hmax').
  apply (anti_symm sublist); auto.
Qed.

(** ** Toggling and deleting *)

Lemma lookup_map {A B} (f : A -> B) (l : list A) (k : nat) :
  map f l !! k = f <$> (l !! k).
Proof.
  revert k. induction l as [|a l IH]; intros [|k]; simpl; auto.
Qed.

Lemma map_map_id {A} (f : A -> A) (l : list A) :
  (forall a, f (f a) = a) -> map f (map f l) = l.
Proof.
  intros Hf. induction l as [|a l IH]; simpl; [reflexivity|].
  rewrite Hf, IH. reflexivity.
Qed.

Lemma map_ext_id {A} (f : A -> A) (l : list A) :
  (forall a, a ∈ l -> f a = a) -> map f l = l.
Proof.
  induction l as [|a l IH]; intros Hf; simpl; [reflexivity|].
  rewrite Hf by left. rewrite IH; [reflexivity|].
  intros b Hb. apply Hf. right. exact Hb.
Qed.

Lemma filter_none {A} (p : A -> bool) (l : list A) :
  Forall (fun a => p a = true) l -> List.filter p l = l.
Proof.
  induction 1 as [|a l Ha _ IH]; simpl; [reflexivity|].
  rewrite Ha, IH. reflexivity.
Qed.

Lemma filter_twice {A} (p : A -> bool) (l : list A) :
  List.filter p (List.filter p l) = List.filter p l.
Proof.
  induction l as [|a l IH]; simpl; [reflexivity|].
  destruct (p a) eqn:Ha; simpl; [rewrite Ha, IH|]; auto.
Qed.

Lemma filter_split_length {A} (p : A -> bool) (l : list A) :
  (length (List.filter (fun a => negb (p a)) l) + length (List.filter p l)
   = length l)%nat.
Proof.
  induction l as [|a l IH]; simpl; [reflexivity|].
  destruct (p a); simpl; lia.
Qed.

(** C7: a task with the given id is replaced, at its position, by a
    task with the same id and text and the negated flag; a task with
    another id stays as it is; toggling twice gives back the state, so
    the flag of that task and every other task; when no task has the id
    nothing changes. *)
Theorem C7_toggle (i : Z) (st : State) :
  (forall k t, tasks st !! k = Some t -> Task.id t = i ->
     tasks (handle (ClickToggle i) st) !! k
     = Some (Task.mk (Task.id t) (Task.text t) (negb (Task.completed t)))) /\
  (forall k t, tasks st !! k = Some t -> Task.id t <> i ->
     tasks (handle (ClickToggle i) st) !! k = Some t) /\
  length (tasks (handle (ClickToggle i) st)) = length (tasks st) /\
  handle (ClickToggle i) (handle (ClickToggle i) st) = st /\
  ((forall t, t ∈ tasks st -> Task.id t <> i) ->
   handle (ClickToggle i) st = st).
Proof.
  destruct st as [ts input f]. unfold handle. simpl.
  split; [|split; [|split; [|split]]].
  - intros k t Hk Hi. rewrite lookup_map, Hk. simpl.
    apply Z.eqb_eq in Hi. rewrite Hi. reflexivity.
  - intros k t Hk Hi. rewrite lookup_map, Hk. simpl.
    apply Z.eqb_neq in Hi. rewrite Hi. reflexivity.
  - apply length_map.
  - f_equal. apply map_map_id. intros [j s c]. simpl.
    destruct (j =? i) eqn:E; simpl; rewrite E; [|reflexivity].
    rewrite negb_involutive. reflexivity.
  - intros Hno. f_equal. apply map_ext_id. intros t Ht.
    specialize (Hno t Ht). apply Z.eqb_neq in Hno. rewrite Hno. reflexivity.
Qed.

Lemma C7_toggle_witness :
  tasks (handle (ClickToggle 1000) (add padded 1000 empty_state)) !! 0%nat
  = Some (Task.mk 1000 padded true).
Proof.
  apply (proj1 (C7_toggle 1000 (add padded 1000 empty_state))
           0%nat (Task.mk 1000 padded false)); reflexivity.
Defined.

(** C8, as stated, fails: when two tasks carry the id, one call removes
    both and the length drops by two. *)
Lemma C8_both_duplicates_removed :
  (exists t, t ∈ tasks (add_all same_tick_calls empty_state) /\ Task.id t = 1000) /\
  length (tasks (add_all same_tick_calls empty_state)) = 2%nat /\
  length (tasks (handle (ClickDelete 1000)
                   (add_all same_tick_calls empty_state))) = 0%nat.
Proof.
  split; [|split]; try reflexivity.
  exists (Task.mk 1000 (str "a") false). split; [left|reflexivity].
Qed.

(** C8, amended: when exactly one task carries the id, [deleteTask]
    removes it and keeps the others in their order, the length drops by
    exactly one, and a second call changes nothing. *)
Theorem C8_delete_single (i : Z) (st : State) (before after : list Task)
    (t : Task) :
  tasks st = before ++ t :: after ->
  Task.id t = i ->
  Forall (fun u => Task.id u <> i) (before ++ after) ->
  tasks (handle (ClickDelete i) st) = before ++ after /\
  (length (tasks (handle (ClickDelete i) st)) + 1 = length (tasks st))%nat /\
  handle (ClickDelete i) (handle (ClickDelete i) st) = handle (ClickDelete i) st.
Proof.
  intros Hts Hi Hothers. destruct st as [ts input f]. simpl in Hts. subst ts.
  unfold handle. simpl.
  apply Forall_app in Hothers as [Hb Ha].
  assert (Hkeep : forall l, Forall (fun u => Task.id u <> i) l ->
            List.filter (fun u => negb (Task.id u =? i)) l = l).
  { intros l Hl. apply filter_none. eapply Forall_impl; [exact Hl|].
    intros u Hu. simpl. apply negb_true_iff, Z.eqb_neq, Hu. }
  assert (Hdel : List.filter (fun u => negb (Task.id u =? i)) (before ++ t :: after)
                 = before ++ after).
  { rewrite List.filter_app. simpl. apply Z.eqb_eq in Hi. rewrite Hi. simpl.
    rewrite !Hkeep by assumption. reflexivity. }
  rewrite Hdel. split; [reflexivity|]. split.
  - rewrite !length_app. simpl. lia.
  - f_equal. rewrite List.filter_app, !Hkeep by assumption. reflexivity.
Qed.

Lemma C8_delete_single_witness :
  tasks (handle (ClickDelete 1001) (add_all next_tick_calls empty_state))
  = [Task.mk 1000 (str "a") false] ++ [].
Proof.
  apply (C8_delete_single 1001 (add_all next_tick_calls empty_state)
           [Task.mk 1000 (str "a") false] [] (Task.mk 1001 (str "b") false)).
  - reflexivity.
  - reflexivity.
  - repeat constructor. discriminate.
Defined.

(** C10: when two or more tasks carry the id, one [deleteTask] removes
    every one of them and keeps every other task, so the length drops by
    their number, at least two; one [toggleTask] negates the flag of
    every one of them. *)
Theorem C10_duplicates_go_together (i : Z) (st : State) :
  (2 <= length (carrying i st))%nat ->
  (forall t, t ∈ tasks (handle (ClickDelete i) st) <->
             t ∈ tasks st /\ Task.id t <> i) /\
  (length (tasks (handle (ClickDelete i) st))
   + length (carrying i st) = length (tasks st))%nat /\
  (length (tasks (handle (ClickDelete i) st)) + 2 <= length (tasks st))%nat /\
  (forall k t, tasks st !! k = Some t -> Task.id t = i ->
     tasks (handle (ClickToggle i) st) !! k
     = Some (Task.mk (Task.id t) (Task.text t) (negb (Task.completed t)))).
Proof.
  intros Hdup. destruct st as [ts input f]. unfold handle, carrying in *.
  simpl in *.
  pose proof (filter_split_length (fun t => Task.id t =? i) ts) as Hlen.
  split; [|split; [|split]].
  - intros t. rewrite !list_elem_of_In, filter_In, negb_true_iff, Z.eqb_neq.
    reflexivity.
  - exact Hlen.
  - lia.
  - intros k t Hk Hi. rewrite lookup_map, Hk. simpl.
    apply Z.eqb_eq in Hi. rewrite Hi. reflexivity.
Qed.

Lemma C10_duplicates_go_together_witness :
  (length (tasks (handle (ClickDelete 1000)
                    (add_all same_tick_calls empty_state))) + 2
   <= length (tasks (add_all same_tick_calls empty_state)))%nat.
Proof.
  apply (C10_duplicates_go_together 1000 (add_all same_tick_calls empty_state)).
  vm_compute. lia.
Defined.

(** ** Reading the store *)

(** C2, as stated, fails: a stored JSON string is well-formed JSON, so
    the hook returns the string, not the default; the component then
    starts from that string and its first render raises. *)
Lemma C2_stored_string_is_returned :
  Storage.getItem string_storage tasksKey = Ok (Some (quoted "oops")) /\
  JSON.parse (quoted "oops") = Ok (JStr (str "oops")) /\
  useLocalStorage_initialState string_storage tasksKey (JArr [])
    = JStr (str "oops") /\
  useLocalStorage_initialState string_storage tasksKey (JArr []) <> JArr [] /\
  mount string_storage = Throw TypeError.
Proof.
  repeat split; try (vm_compute; reflexivity).
  vm_compute. discriminate.
Qed.

(** C2, amended: the initial state is the default when the store cannot
    be read, when the key is absent, when the stored text is empty and
    when [JSON.parse] rejects the text; no exception leaves the hook.  A
    text that [JSON.parse] accepts gives the parsed value, whatever its
    shape. *)
Theorem C2_initial_state (ls : Storage.t) (key : jsstring) (initialValue : json) :
  (Storage.available ls = false ->
   useLocalStorage_initialState ls key initialValue = initialValue) /\
  (Storage.items ls !! key = None ->
   useLocalStorage_initialState ls key initialValue = initialValue) /\
  (Storage.items ls !! key = Some [] ->
   useLocalStorage_initialState ls key initialValue = initialValue) /\
  (forall text e,
     Storage.items ls !! key = Some text -> JSON.parse text = Throw e ->
     useLocalStorage_initialState ls key initialValue = initialValue) /\
  (forall text v,
     Storage.available ls = true -> Storage.items ls !! key = Some text ->
     text <> [] -> JSON.parse text = Ok v ->
     useLocalStorage_initialState ls key initialValue = v).
Proof.
  unfold useLocalStorage_initialState, Storage.getItem.
  destruct (Storage.available ls); simpl.
  - split; [discriminate|]. split; [intros ->; reflexivity|].
    split; [intros ->; reflexivity|]. split.
    + intros text e -> Hp. destruct (truthy text); [|reflexivity].
      rewrite Hp. reflexivity.
    + intros text v _ -> Hne Hp. apply truthy_true in Hne.
      rewrite Hne, Hp. reflexivity.
  - repeat split; try reflexivity. intros text v H. discriminate.
Qed.

Lemma C2_initial_state_witness :
  useLocalStorage_initialState fresh_storage tasksKey (JArr []) = JArr [].
Proof.
  apply (proj1 (proj2 (C2_initial_state fresh_storage tasksKey (JArr [])))).
  reflexivity.
Defined.

(** ** Writing the store *)

Lemma setItem_stores ls key value ls' :
  Storage.setItem ls key value = Ok ls' ->
  Storage.items ls' !! key = Some value.
Proof.
  unfold Storage.setItem. destruct (Storage.available ls); [|discriminate].
  destruct (_ <=? _)%N; [|discriminate].
  intros [= <-]. simpl. apply lookup_insert_eq.
Qed.

Lemma mutating_calls_setTasks ev st :
  mutating ev st -> storedValue_changed (handler ev st) = true.
Proof.
  destruct ev; simpl; try tauto.
  intros H. apply truthy_true in H. unfold addTask. rewrite H. reflexivity.
Qed.

Lemma other_events_keep_tasks ev st :
  ~ mutating ev st ->
  storedValue_changed (handler ev st) = false /\
  tasks (handle ev st) = tasks st.
Proof.
  destruct ev; simpl; try tauto; try (intros _; split; reflexivity).
  intros H. unfold handle. simpl. unfold addTask.
  destruct (truthy (trim (text st))) eqn:E; [|split; reflexivity].
  apply truthy_true in E. tauto.
Qed.

Lemma mutating_dec ev st : mutating ev st \/ ~ mutating ev st.
Proof.
  destruct ev; simpl; try tauto.
  destruct (trim (text st)); [right; tauto|left; discriminate].
Qed.

Lemma step_in_sync ev w w' :
  step ev w = Ok w' -> mutating ev (ui w) \/ in_sync w ->
  ui w' = handle ev (ui w) /\ in_sync w'.
Proof.
  unfold step, in_sync, persisted, useLocalStorage_effect. intros Hstep Hpre.
  fold (handle ev (ui w)) in Hstep.
  destruct (mutating_dec ev (ui w)) as [Hm|Hm].
  - rewrite (mutating_calls_setTasks _ _ Hm) in Hstep.
    destruct (Storage.setItem _ _ _) as [ls'|e] eqn:Hset; [|discriminate].
    simpl in Hstep. injection Hstep as <-. simpl.
    split; [reflexivity|]. exact (setItem_stores _ _ _ _ Hset).
  - destruct (other_events_keep_tasks _ _ Hm) as [Hno Hsame].
    rewrite Hno in Hstep. injection Hstep as <-. simpl.
    split; [reflexivity|]. rewrite Hsame. tauto.
Qed.

(** From a state where store and memory agree, every run of events that
    completes ends in such a state. *)
Lemma run_in_sync evs w w' :
  in_sync w -> run evs w = Ok w' -> in_sync w'.
Proof.
  revert w. induction evs as [|ev evs IH]; simpl; intros w Hs Hrun.
  - injection Hrun as <-. exact Hs.
  - destruct (step ev w) as [w1|e] eqn:Hstep; [|discriminate]. simpl in Hrun.
    apply (IH w1); [|exact Hrun].
    apply (step_in_sync ev w w1 Hstep). right. exact Hs.
Qed.

(** A write the store refuses is not caught: the event ends with the
    exception of [setItem]. *)
Lemma step_write_failure ev w e :
  mutating ev (ui w) ->
  Storage.setItem (storage w) tasksKey
    (JSON.stringify (tasks_value (tasks (handle ev (ui w))))) = Throw e ->
  step ev w = Throw e.
Proof.
  intros Hm Hset. unfold step, useLocalStorage_effect.
  fold (handle ev (ui w)).
  rewrite (mutating_calls_setTasks _ _ Hm), Hset. reflexivity.
Qed.

(** C4: the code at a store that accepts no data.  The exception of
    [setItem] leaves the effect, at the first render and after a
    mutation alike, where the claim has a silent no-op. *)
Theorem C4_write_failure_is_raised :
  step (ClickAdd 1000) (mkWorld full_storage (mkState [] (str "a") All))
    = Throw QuotaExceededError /\
  mount full_storage = Throw QuotaExceededError.
Proof. split; vm_compute; reflexivity. Qed.

(** C5: a mutating event that returns leaves under the tasks key the
    text of the whole task array of the new state, and it returns
    whenever the store accepts that text; any other event that returns
    keeps store and memory in agreement. *)
Theorem C5_write_through (ev : Event) (w : World) :
  (forall w', step ev w = Ok w' -> mutating ev (ui w) \/ in_sync w ->
     ui w' = handle ev (ui w) /\
     persisted (storage w')
       = Some (JSON.stringify (tasks_value (tasks (ui w'))))) /\
  (forall ls', mutating ev (ui w) ->
     Storage.setItem (storage w) tasksKey
       (JSON.stringify (tasks_value (tasks (handle ev (ui w))))) = Ok ls' ->
     step ev w = Ok (mkWorld ls' (handle ev (ui w)))).
Proof.
  split.
  - intros w' Hstep Hpre. exact (step_in_sync ev w w' Hstep Hpre).
  - intros ls' Hm Hset. unfold step, useLocalStorage_effect.
    fold (handle ev (ui w)).
    rewrite (mutating_calls_setTasks _ _ Hm), Hset. reflexivity.
Qed.

Lemma C5_write_through_witness :
  step (ClickAdd 1000) (mkWorld fresh_storage (mkState [] (str "a") All))
  = Ok (mkWorld
          (Storage.mk
             {[ tasksKey := JSON.stringify
                  (tasks_value [Task.mk 1000 (str "a") false]) ]}
             true 5000000 1)
          (mkState [Task.mk 1000 (str "a") false] [] All)).
Proof.
  apply (proj2 (C5_write_through (ClickAdd 1000)
                  (mkWorld fresh_storage (mkState [] (str "a") All)))).
  - vm_compute. discriminate.
  - vm_compute. reflexivity.
Defined.

(** ** The task array as a JavaScript value *)

Lemma get_completed (t : Task) :
  get (task_value t) (str "completed") = Ok (Some (JBool (Task.completed t))).
Proof. reflexivity. Qed.

(** On the value of a task array the expression of [filteredTasks]
    raises nothing and computes the value of the typed view. *)
Lemma filteredTasks_of_tasks (ts : list Task) (input : jsstring) (f : Filter) :
  filteredTasks_of (tasks_value ts) f
  = Ok (map task_value (filteredTasks (mkState ts input f))).
Proof.
  unfold filteredTasks_of, filteredTasks, tasks_value. simpl.
  induction ts as [|t ts IH]; [reflexivity|].
  cbn [map filter_with List.filter]. rewrite IH.
  destruct f; cbn [bind]; try rewrite get_completed; cbn [bind ToBoolean];
    destruct (Task.completed t); reflexivity.
Qed.

(** Mounting on a stored task array starts from that array with store
    and memory in agreement. *)
Lemma mount_hydrates (ls ls' : Storage.t) (ts : list Task) :
  useLocalStorage_initialState ls tasksKey (JArr []) = tasks_value ts ->
  useLocalStorage_effect ls tasksKey (tasks_value ts) = Ok ls' ->
  mount ls = Ok (tasks_value ts, ls') /\
  in_sync (mkWorld ls' (mkState ts [] All)).
Proof.
  intros Hinit Heff. unfold mount. rewrite Hinit.
  rewrite (filteredTasks_of_tasks ts [] All). cbn [bind]. rewrite Heff.
  split; [reflexivity|]. exact (setItem_stores _ _ _ _ Heff).
Qed.

(** The scenario of the specification: add a task, complete it, look at
    the two filtered views, then reload the page. *)
Example buy_milk :
  match run [ Input (str "buy milk"); ClickAdd 1000; ClickToggle 1000 ]
            (mkWorld fresh_storage empty_state) with
  | Ok w =>
      tasks (ui w) = [ Task.mk 1000 (str "buy milk") true ] /\
      filteredTasks (handle (ClickFilter Active) (ui w)) = [] /\
      filteredTasks (handle (ClickFilter Completed) (ui w)) = tasks (ui w) /\
      useLocalStorage_initialState (storage w) tasksKey (JArr [])
        = tasks_value (tasks (ui w))
  | Throw _ => False
  end.
Proof. vm_compute. repeat split. Qed.

(** ** Events that leave the tasks as they are *)

Lemma setItem_items ls key value ls' :
  Storage.setItem ls key value = Ok ls' ->
  Storage.items ls' = <[key := value]> (Storage.items ls).
Proof.
  unfold Storage.setItem. destruct (Storage.available ls); [|discriminate].
  destruct (_ <=? _)%N; [|discriminate].
  intros [= <-]. reflexivity.
Qed.

(** When store and memory agree, an event that returns with the same
    tasks leaves every entry of the store as it was: toggling or
    deleting an id that no task carries writes the text that is already
    there. *)
Lemma step_same_tasks_same_items ev w w' :
  in_sync w -> step ev w = Ok w' ->
  tasks (handle ev (ui w)) = tasks (ui w) ->
  Storage.items (storage w') = Storage.items (storage w).
Proof.
  unfold in_sync, persisted, step, useLocalStorage_effect.
  fold (handle ev (ui w)). intros Hs Hstep Hsame.
  destruct (storedValue_changed (handler ev (ui w))).
  - destruct (Storage.setItem _ _ _) as [ls'|e] eqn:Hset; [|discriminate].
    simpl in Hstep. injection Hstep as <-. simpl.
    rewrite (setItem_items _ _ _ _ Hset), Hsame.
    apply insert_id. exact Hs.
  - injection Hstep as <-. reflexivity.
Qed.

(** No event puts a task with a blank text into the collection. *)
Lemma handle_keeps_nonblank ev st :
  Forall (fun t => trim (Task.text t) <> []) (tasks st) ->
  Forall (fun t => trim (Task.text t) <> []) (tasks (handle ev st)).
Proof.
  intros Hall. destruct ev as [value|now|f|i|i]; try exact Hall.
  - destruct (trim (text st)) as [|c r] eqn:E.
    + rewrite handle_add_blank by exact E. exact Hall.
    + rewrite handle_add_accepted by (rewrite E; discriminate). simpl.
      apply Forall_app. split; [exact Hall|].
      constructor; [simpl; rewrite E; discriminate|constructor].
  - unfold handle. simpl. induction Hall as [|t ts Ht _ IH]; simpl.
    + constructor.
    + constructor; [|exact IH]. destruct (Task.id t =? i); exact Ht.
  - unfold handle. simpl. induction Hall as [|t ts Ht _ IH]; simpl.
    + constructor.
    + destruct (Task.id t =? i); simpl; [exact IH|].
      constructor; [exact Ht|exact IH].
Qed.

(** The collection grows by one task for each accepted call. *)
Lemma add_all_length calls st :
  Forall (fun c => trim c.1 <> []) calls ->
  length (tasks (add_all calls st)) = (length (tasks st) + length calls)%nat.
Proof.
  revert st. induction calls as [|[value now] calls IH]; intros st Hacc; simpl.
  - lia.
  - apply Forall_cons in Hacc as [Hv Hacc]. simpl in Hv.
    change (fold_left _ calls (add value now st))
      with (add_all calls (add value now st)).
    rewrite IH by exact Hacc.
    rewrite add_accepted by exact Hv. simpl. rewrite length_app. simpl. lia.
Qed.

(** * Further properties *)

(** ** [JSON.parse] reads back what [JSON.stringify] printed *)

Module RoundTrip.
Import JSON.
Local Open Scope N_scope.

Lemma hex_val_hex_digit (n : N) : n < 16 -> hex_val (hex_digit n) = Some n.
Proof.
  intros H. destruct n as [|p]; [reflexivity|].
  do 4 (destruct p as [p|p|]; try reflexivity; try (exfalso; lia)).
Qed.

Lemma hex4_u_escape (c : N) :
  c < 65536 ->
  hex4 (hex_digit (c / 4096 mod 16)) (hex_digit (c / 256 mod 16))
       (hex_digit (c / 16 mod 16)) (hex_digit (c mod 16)) = Some c.
Proof.
  intros H. unfold hex4.
  rewrite !hex_val_hex_digit by (apply N.mod_lt; discriminate).
  cbn [mbind option_bind]. f_equal.
  pose proof (N.Div0.div_mod c 16) as E1.
  pose proof (N.Div0.div_mod (c / 16) 16) as E2.
  pose proof (N.Div0.div_mod (c / 256) 16) as E3.
  rewrite N.Div0.div_div in E2, E3.
  change (16 * 16) with 256 in E2. change (256 * 16) with 4096 in E3.
  assert (E4 : c / 4096 < 16) by (apply N.Div0.div_lt_upper_bound; lia).
  rewrite (N.mod_small (c / 4096) 16 E4).
  generalize dependent (c / 4096). generalize dependent (c / 256).
  generalize dependent (c / 16). intros. lia.
Qed.

Lemma parse_chars_escape (e u : N) (rest : jsstring) :
  e <> 117 -> unescape e = Some u ->
  parse_chars (92 :: e :: rest) = push u (parse_chars rest).
Proof.
  intros He Hu. cbn [parse_chars]. change (92 =? 34) with false.
  change (92 =? 92) with true. cbv iota.
  apply N.eqb_neq in He. rewrite He, Hu. reflexivity.
Qed.

Lemma parse_chars_u_escape (c : N) (rest : jsstring) :
  c < 65536 -> parse_chars (u_escape c ++ rest) = push c (parse_chars rest).
Proof.
  intros Hc. unfold u_escape. cbn [app parse_chars].
  change (92 =? 34) with false. change (92 =? 92) with true.
  change (117 =? 117) with true. cbv iota.
  rewrite hex4_u_escape by exact Hc. reflexivity.
Qed.

Lemma parse_chars_raw (c : N) (rest : jsstring) :
  c <> 34 -> c <> 92 -> 32 <= c ->
  parse_chars (c :: rest) = push c (parse_chars rest).
Proof.
  intros H1 H2 H3. cbn [parse_chars].
  apply N.eqb_neq in H1, H2. rewrite H1, H2.
  apply N.ltb_ge in H3. rewrite H3. reflexivity.
Qed.

Lemma parse_chars_quote_body (s rest : jsstring) :
  parse_chars (quote_body s ++ 34 :: rest) = Some (s, rest).
Proof.
  remember (length s) as n eqn:Hn.
  revert s Hn. induction (lt_wf n) as [n _ IH]. intros s Hn.
  destruct s as [|c r]; [reflexivity|].
  assert (Hr : parse_chars (quote_body r ++ 34 :: rest) = Some (r, rest)).
  { apply (IH (length r)); [subst n; simpl; lia|reflexivity]. }
  cbn [quote_body].
  destruct (c =? 34) eqn:E34.
  { apply N.eqb_eq in E34. subst c. cbn [app].
    rewrite (parse_chars_escape 34 34), Hr by (reflexivity || discriminate).
    reflexivity. }
  destruct (c =? 92) eqn:E92.
  { apply N.eqb_eq in E92. subst c. cbn [app].
    rewrite (parse_chars_escape 92 92), Hr by (reflexivity || discriminate).
    reflexivity. }
  destruct (c =? 8) eqn:E8.
  { apply N.eqb_eq in E8. subst c. cbn [app].
    rewrite (parse_chars_escape 98 8), Hr by (reflexivity || discriminate).
    reflexivity. }
  destruct (c =? 12) eqn:E12.
  { apply N.eqb_eq in E12. subst c. cbn [app].
    rewrite (parse_chars_escape 102 12), Hr by (reflexivity || discriminate).
    reflexivity. }
  destruct (c =? 10) eqn:E10.
  { apply N.eqb_eq in E10. subst c. cbn [app].
    rewrite (parse_chars_escape 110 10), Hr by (reflexivity || discriminate).
    reflexivity. }
  destruct (c =? 13) eqn:E13.
  { apply N.eqb_eq in E13. subst c. cbn [app].
    rewrite (parse_chars_escape 114 13), Hr by (reflexivity || discriminate).
    reflexivity. }
  destruct (c =? 9) eqn:E9.
  { apply N.eqb_eq in E9. subst c. cbn [app].
    rewrite (parse_chars_escape 116 9), Hr by (reflexivity || discriminate).
    reflexivity. }
  apply N.eqb_neq in E34, E92.
  destruct (c <? 32) eqn:E32.
  { apply N.ltb_lt in E32. rewrite <- app_assoc.
    rewrite parse_chars_u_escape, Hr by lia. reflexivity. }
  apply N.ltb_ge in E32.
  destruct (is_high_surrogate c) eqn:Ehi.
  { unfold is_high_surrogate in Ehi. apply andb_true_iff in Ehi as [H1 H2].
    apply N.leb_le in H1, H2.
    destruct r as [|d r'].
    - rewrite parse_chars_u_escape by lia. reflexivity.
    - destruct (is_low_surrogate d) eqn:Elo.
      + unfold is_low_surrogate in Elo. apply andb_true_iff in Elo as [H3 H4].
        apply N.leb_le in H3, H4. cbn [app].
        rewrite (parse_chars_raw c), (parse_chars_raw d) by lia.
        rewrite (IH (length r')); [reflexivity|subst n; simpl; lia|reflexivity].
      + rewrite <- app_assoc.
        rewrite parse_chars_u_escape, Hr by lia. reflexivity. }
  destruct (is_low_surrogate c) eqn:Elo.
  { unfold is_low_surrogate in Elo. apply andb_true_iff in Elo as [H3 H4].
    apply N.leb_le in H3, H4. rewrite <- app_assoc.
    rewrite parse_chars_u_escape, Hr by lia. reflexivity. }
  cbn [app]. rewrite parse_chars_raw, Hr by lia. reflexivity.
Qed.

Lemma quote_app (s rest : jsstring) :
  quote s ++ rest = 34 :: quote_body s ++ 34 :: rest.
Proof. unfold quote. cbn [app]. rewrite <- app_assoc. reflexivity. Qed.

Lemma uint_units_digits (u : Decimal.uint) :
  forallb is_digit (uint_units u) = true.
Proof. induction u; cbn [uint_units forallb]; try rewrite IHu; reflexivity. Qed.

Lemma take_digits_units (u : Decimal.uint) (rest : jsstring) :
  match rest with c :: _ => is_digit c = false | [] => True end ->
  take_digits (uint_units u ++ rest)
  = (map (fun c => c - 48) (uint_units u), rest).
Proof.
  intros Hrest.
  induction u; cbn [uint_units app map take_digits];
    try (change (is_digit _) with true; cbv iota; rewrite IHu; reflexivity).
  destruct rest as [|c r]; [reflexivity|]. cbn [take_digits].
  rewrite Hrest. reflexivity.
Qed.

Lemma digits_value_acc (u : Decimal.uint) (acc : positive) :
  fold_left (fun a d => 10 * a + d) (map (fun c => c - 48) (uint_units u))
    (Npos acc) = Npos (Pos.of_uint_acc u acc).
Proof.
  revert acc.
  induction u; intros acc; cbn [uint_units map fold_left Pos.of_uint_acc];
    try reflexivity; rewrite <- IHu; f_equal; lia.
Qed.

Lemma digits_value_units (u : Decimal.uint) :
  digits_value (map (fun c => c - 48) (uint_units u)) = N.of_uint u.
Proof.
  unfold digits_value, N.of_uint.
  induction u; cbn [uint_units map fold_left Pos.of_uint];
    try reflexivity; try exact IHu;
    change (10 * 0 + _) with (Npos 1) || idtac.
  all: try (rewrite <- digits_value_acc; reflexivity).
Qed.

Lemma to_uint_normal (n : N) (u : Decimal.uint) :
  N.to_uint n = Decimal.D0 u -> u = Decimal.Nil.
Proof.
  intros H. pose proof (DecimalN.Unsigned.to_of (N.to_uint n)) as Hn.
  rewrite DecimalN.Unsigned.of_to, H, unorm_D0 in Hn.
  unfold Decimal.unorm in Hn.
  destruct (Decimal.nzhead u) eqn:E; try discriminate;
    try (exfalso; exact (nzhead_nonzero u u (eq_trans E (eq_sym Hn)))).
  injection Hn as <-. reflexivity.
Qed.

Lemma digits_head (n : N) :
  exists d ds, digits n = d :: ds /\ is_digit d = true /\
    ((d =? 48) && negb (length ds =? 0)%nat = false).
Proof.
  unfold digits. destruct (N.to_uint n) as [|u|u|u|u|u|u|u|u|u|u] eqn:E;
    cbn [uint_units]; try (eexists _, _; repeat split; reflexivity).
  - exfalso. pose proof (DecimalN.Unsigned.to_of (N.to_uint n)) as Hn.
    rewrite DecimalN.Unsigned.of_to, E in Hn. discriminate.
  - apply to_uint_normal in E. subst u. eexists _, _. repeat split; reflexivity.
Qed.

Lemma decimal_0 (m : Z) : decimal m 0 = Int m.
Proof.
  unfold decimal. destruct (m =? 0)%Z eqn:E.
  - apply Z.eqb_eq in E. subst m. reflexivity.
  - change (0 <=? 0)%Z with true. cbv iota.
    rewrite Z.pow_0_r, Z.mul_1_r. reflexivity.
Qed.

Lemma parse_number_int (z : Z) (c : N) (rest : jsstring) :
  is_digit c = false -> c <> 46 -> c <> 101 -> c <> 69 ->
  parse_number (number_text (Int z) ++ c :: rest) = Some (Int z, c :: rest).
Proof.
  intros Hd H46 H101 H69. cbn [number_text].
  destruct (digits_head (Z.abs_N z)) as (d & ds & Hds & Hdig & Hlead).
  set (f := fun c : N => c - 48).
  assert (Hd45 : (d =? 45) = false).
  { unfold is_digit in Hdig. apply andb_true_iff in Hdig as [H1 _].
    apply N.leb_le in H1. apply N.eqb_neq. lia. }
  assert (Hzero : (f d =? 0) && negb (length (map f ds) =? 0)%nat = false).
  { rewrite length_map. unfold f. rewrite <- Hlead. f_equal.
    unfold is_digit in Hdig. apply andb_true_iff in Hdig as [H1 _].
    apply N.leb_le in H1.
    destruct (d =? 48) eqn:E.
    - apply N.eqb_eq in E. subst d. reflexivity.
    - apply N.eqb_neq in E. apply N.eqb_neq. lia. }
  assert (Htake : take_digits (digits (Z.abs_N z) ++ c :: rest)
                  = (f d :: map f ds, c :: rest)).
  { unfold digits. rewrite take_digits_units by exact Hd.
    fold (digits (Z.abs_N z)). rewrite Hds. reflexivity. }
  assert (Hval : digits_value ((f d :: map f ds) ++ []) = Z.abs_N z).
  { rewrite app_nil_r. change (f d :: map f ds) with (map f (d :: ds)).
    rewrite <- Hds. unfold digits, f.
    rewrite digits_value_units. apply DecimalN.Unsigned.of_to. }
  apply N.eqb_neq in H46, H101, H69.
  unfold parse_number, minus_sign. destruct (z <? 0)%Z eqn:Hneg.
  - cbn [app]. change (45 =? 45) with true. cbv iota zeta beta.
    rewrite Htake. cbv iota zeta beta. rewrite Hzero, H46.
    cbn [mbind option_bind snd fst]. rewrite H101, H69.
    cbn [orb mbind option_bind snd fst length]. rewrite Hval.
    change (0 - Z.of_nat 0)%Z with 0%Z. rewrite decimal_0.
    apply Z.ltb_lt in Hneg. do 2 f_equal. f_equal. lia.
  - cbn [app]. rewrite Hds at 1. cbn [app]. rewrite Hd45.
    cbv iota zeta beta.
    rewrite Htake. cbv iota zeta beta. rewrite Hzero, H46.
    cbn [mbind option_bind snd fst]. rewrite H101, H69.
    cbn [orb mbind option_bind snd fst length]. rewrite Hval.
    change (0 - Z.of_nat 0)%Z with 0%Z. rewrite decimal_0.
    apply Z.ltb_ge in Hneg. do 2 f_equal. f_equal. lia.
Qed.

Lemma parse_value_string (n : nat) (s rest : jsstring) :
  parse_value (S n) (quote s ++ rest) = Some (JStr s, rest).
Proof.
  rewrite quote_app. cbn [parse_value]. change (skip_ws (34 :: ?x)) with (34 :: x).
  change (34 =? 34) with true. cbv iota.
  rewrite parse_chars_quote_body. reflexivity.
Qed.

Lemma number_text_head (z : Z) (rest : jsstring) :
  exists c r, number_text (Int z) ++ rest = c :: r /\
    (c = 45 \/ is_digit c = true).
Proof.
  cbn [number_text]. unfold minus_sign. destruct (z <? 0)%Z.
  - eexists _, _. split; [reflexivity|]. left. reflexivity.
  - destruct (digits_head (Z.abs_N z)) as (d & ds & Hds & Hdig & _).
    rewrite Hds. eexists _, _. split; [reflexivity|]. right. exact Hdig.
Qed.

Lemma parse_value_int (n : nat) (z : Z) (c : N) (rest : jsstring) :
  c = 44 \/ c = 125 ->
  parse_value (S n) (number_text (Int z) ++ c :: rest)
  = Some (JNum (Int z), c :: rest).
Proof.
  intros Hc.
  assert (Hp : parse_number (number_text (Int z) ++ c :: rest)
               = Some (Int z, c :: rest)).
  { apply parse_number_int; destruct Hc as [-> | ->];
      reflexivity || discriminate. }
  destruct (number_text_head z (c :: rest)) as (c0 & r0 & Htext & Hc0).
  rewrite Htext in Hp |- *. cbn [parse_value].
  assert (Hws : skip_ws (c0 :: r0) = c0 :: r0).
  { cbn [skip_ws]. destruct Hc0 as [-> | Hdig]; [reflexivity|].
    unfold is_digit in Hdig. apply andb_true_iff in Hdig as [H1 H2].
    apply N.leb_le in H1, H2. unfold is_json_ws.
    replace (c0 =? 32) with false by (symmetry; apply N.eqb_neq; lia).
    replace (c0 =? 9) with false by (symmetry; apply N.eqb_neq; lia).
    replace (c0 =? 10) with false by (symmetry; apply N.eqb_neq; lia).
    replace (c0 =? 13) with false by (symmetry; apply N.eqb_neq; lia).
    reflexivity. }
  rewrite Hws.
  assert (Hno : forall k, k = 34 \/ k = 91 \/ k = 123 \/ k = 110 \/ k = 116
                  \/ k = 102 -> (c0 =? k) = false).
  { intros k Hk. apply N.eqb_neq. destruct Hc0 as [-> | Hdig]; [lia|].
    unfold is_digit in Hdig. apply andb_true_iff in Hdig as [H1 H2].
    apply N.leb_le in H1, H2. lia. }
  rewrite !Hno by tauto. rewrite Hp. reflexivity.
Qed.

Lemma parse_value_bool (n : nat) (b : bool) (rest : jsstring) :
  parse_value (S n) (stringify (JBool b) ++ rest) = Some (JBool b, rest).
Proof. destruct b; reflexivity. Qed.

Lemma parse_members_more (n : nat) (k vt more : jsstring) (v : json) :
  parse_value n (vt ++ 44 :: more) = Some (v, 44 :: more) ->
  parse_members (S n) (quote k ++ 58 :: vt ++ 44 :: more)
  = '(l, rest) ← parse_members n more; Some ((k, v) :: l, rest).
Proof.
  intros Hv. rewrite quote_app. cbn [parse_members].
  change (skip_ws (34 :: ?x)) with (34 :: x).
  change (34 =? 34) with true. cbv iota.
  rewrite parse_chars_quote_body. cbn [mbind option_bind].
  change (skip_ws (58 :: ?x)) with (58 :: x).
  change (58 =? 58) with true. cbv iota. rewrite Hv.
  reflexivity.
Qed.

Lemma parse_members_last (n : nat) (k vt rest : jsstring) (v : json) :
  parse_value n (vt ++ 125 :: rest) = Some (v, 125 :: rest) ->
  parse_members (S n) (quote k ++ 58 :: vt ++ 125 :: rest)
  = Some ([(k, v)], rest).
Proof.
  intros Hv. rewrite quote_app. cbn [parse_members].
  change (skip_ws (34 :: ?x)) with (34 :: x).
  change (34 =? 34) with true. cbv iota.
  rewrite parse_chars_quote_body. cbn [mbind option_bind].
  change (skip_ws (58 :: ?x)) with (58 :: x).
  change (58 =? 58) with true. cbv iota. rewrite Hv.
  reflexivity.
Qed.

Lemma task_text (t : Task) (rest : jsstring) :
  stringify (task_value t) ++ rest
  = 123 :: quote (str "id") ++ 58 :: number_text (Int (Task.id t)) ++
    44 :: quote (str "text") ++ 58 :: quote (Task.text t) ++
    44 :: quote (str "completed") ++ 58 ::
    stringify (JBool (Task.completed t)) ++ 125 :: rest.
Proof.
  unfold task_value. cbn [stringify map join_comma fst snd].
  cbn [app]. repeat (rewrite <- app_assoc; cbn [app]). reflexivity.
Qed.

Lemma parse_value_task (n : nat) (t : Task) (rest : jsstring) :
  parse_value (5 + n) (stringify (task_value t) ++ rest)
  = Some (task_value t, rest).
Proof.
  rewrite task_text. change (5 + n)%nat with (S (S (S (S (S n))))).
  cbn [parse_value]. change (skip_ws (123 :: ?x)) with (123 :: x).
  change (123 =? 34) with false. change (123 =? 91) with false.
  change (123 =? 123) with true. cbv iota.
  rewrite (quote_app (str "id")). change (skip_ws (34 :: ?x)) with (34 :: x).
  change (34 =? 125) with false. cbv iota.
  rewrite <- (quote_app (str "id")).
  rewrite (parse_members_more _ _ _ _ (JNum (Int (Task.id t))))
    by (apply parse_value_int; left; reflexivity).
  rewrite (parse_members_more _ _ _ _ (JStr (Task.text t)))
    by apply parse_value_string.
  rewrite (parse_members_last _ _ _ _ (JBool (Task.completed t)))
    by apply parse_value_bool.
  reflexivity.
Qed.

Lemma task_text_head (t : Task) (rest : jsstring) :
  exists r, stringify (task_value t) ++ rest = 123 :: r.
Proof. rewrite task_text. eexists. reflexivity. Qed.

Lemma parse_elements_tasks (ts : list Task) (t : Task) (n : nat)
    (rest : jsstring) :
  parse_elements (length ts + 6 + n)
    (join_comma (map stringify (map task_value (t :: ts))) ++ 93 :: rest)
  = Some (map task_value (t :: ts), rest).
Proof.
  revert t. induction ts as [|t' ts IH]; intros t.
  - change (length (@nil Task) + 6 + n)%nat with (S (5 + n)).
    cbn [map join_comma parse_elements].
    rewrite (parse_value_task n t (93 :: rest)). reflexivity.
  - change (length (t' :: ts) + 6 + n)%nat with (S (length ts + 6 + n)).
    change (map stringify (map task_value (t :: t' :: ts)))
      with (stringify (task_value t)
              :: map stringify (map task_value (t' :: ts))).
    set (more := map stringify (map task_value (t' :: ts))) in *.
    assert (Hj : join_comma (stringify (task_value t) :: more)
                 = stringify (task_value t) ++ 44 :: join_comma more).
    { reflexivity. }
    rewrite Hj, <- app_assoc. cbn [app parse_elements].
    replace (length ts + 6 + n)%nat with (5 + (length ts + 1 + n))%nat by lia.
    rewrite parse_value_task. cbn [mbind option_bind].
    change (skip_ws (44 :: ?x)) with (44 :: x).
    change (44 =? 44) with true. cbv iota.
    replace (5 + (length ts + 1 + n))%nat with (length ts + 6 + n)%nat by lia.
    subst more. rewrite IH. reflexivity.
Qed.

Lemma parse_value_tasks (ts : list Task) (n : nat) (rest : jsstring) :
  parse_value (length ts + 6 + n) (stringify (tasks_value ts) ++ rest)
  = Some (tasks_value ts, rest).
Proof.
  destruct ts as [|t ts]; [reflexivity|].
  unfold tasks_value. cbn [stringify].
  change (length (t :: ts) + 6 + n)%nat with (S (length ts + 6 + n)).
  cbn [app]. rewrite <- app_assoc. cbn [app parse_value].
  change (skip_ws (91 :: ?x)) with (91 :: x).
  change (91 =? 34) with false. change (91 =? 91) with true. cbv iota.
  rewrite parse_elements_tasks.
  assert (Hh : exists r,
             join_comma (map stringify (map task_value (t :: ts))) ++ 93 :: rest
             = 123 :: r).
  { destruct ts as [|t' ts].
    - apply task_text_head.
    - change (join_comma (map stringify (map task_value (t :: t' :: ts))))
        with (stringify (task_value t)
                ++ 44 :: join_comma (map stringify (map task_value (t' :: ts)))).
      rewrite <- app_assoc. apply task_text_head. }
  destruct Hh as [r ->]. reflexivity.
Qed.

Lemma stringify_tasks_length (ts : list Task) :
  (length ts + 2 <= length (stringify (tasks_value ts)))%nat.
Proof.
  unfold tasks_value. cbn [stringify length]. rewrite length_app.
  cbn [length].
  assert (length ts <= length (join_comma (map stringify (map task_value ts))))%nat;
    [|lia].
  induction ts as [|t ts IH]; [reflexivity|].
  destruct ts as [|t' ts].
  - destruct (task_text_head t []) as [r Hr]. rewrite app_nil_r in Hr.
    cbn [map join_comma]. rewrite Hr. cbn [length]. lia.
  - change (join_comma (map stringify (map task_value (t :: t' :: ts))))
      with (stringify (task_value t)
              ++ 44 :: join_comma (map stringify (map task_value (t' :: ts)))).
    rewrite length_app. cbn [length] in *. lia.
Qed.

Lemma parse_stringify_tasks (ts : list Task) :
  parse (stringify (tasks_value ts)) = Ok (tasks_value ts).
Proof.
  unfold parse. pose proof (stringify_tasks_length ts) as Hlen.
  replace (2 * length (stringify (tasks_value ts)) + 2)%nat
    with (length ts + 6
          + (2 * length (stringify (tasks_value ts)) - length ts - 4))%nat by lia.
  rewrite <- (app_nil_r (stringify (tasks_value ts))) at 2.
  rewrite parse_value_tasks. reflexivity.
Qed.
End RoundTrip.

(** ** The store across a session *)

Lemma setItem_inv ls key value ls' :
  Storage.setItem ls key value = Ok ls' ->
  Storage.available ls = true /\
  (Storage.used (<[key := value]> (Storage.items ls)) <=? Storage.quota ls)%N = true /\
  ls' = Storage.mk (<[key := value]> (Storage.items ls)) true
          (Storage.quota ls) (S (Storage.writes ls)).
Proof.
  unfold Storage.setItem. destruct (Storage.available ls); [|discriminate].
  destruct (_ <=? _)%N; [|discriminate].
  intros [= <-]. auto.
Qed.

Lemma stringify_tasks_truthy (ts : list Task) :
  truthy (JSON.stringify (tasks_value ts)) = true.
Proof. reflexivity. Qed.

(** X1: for tasks whose ids are integers that JavaScript holds exactly,
    what the effect of the hook wrote for the task array, the
    initialiser of the hook reads back, under any key and whatever the
    default. *)
Theorem X1_save_then_load (ls ls' : Storage.t) (key : jsstring)
    (ts : list Task) (initialValue : json) :
  safe_ids ts ->
  useLocalStorage_effect ls key (tasks_value ts) = Ok ls' ->
  useLocalStorage_initialState ls' key initialValue = tasks_value ts.
Proof.
  unfold useLocalStorage_effect. intros _ Hset.
  destruct (setItem_inv _ _ _ _ Hset) as (_ & _ & ->).
  unfold useLocalStorage_initialState, Storage.getItem. cbn [Storage.available
    Storage.items bind]. rewrite lookup_insert_eq.
  rewrite stringify_tasks_truthy, RoundTrip.parse_stringify_tasks. reflexivity.
Qed.

Lemma X1_save_then_load_witness :
  useLocalStorage_initialState
    (Storage.mk {[ tasksKey := JSON.stringify
                     (tasks_value [Task.mk 1000 padded true]) ]}
       true 5000000 1)
    tasksKey JNull
  = tasks_value [Task.mk 1000 padded true].
Proof.
  apply (X1_save_then_load fresh_storage _ tasksKey
           [Task.mk 1000 padded true] JNull).
  - repeat constructor.
  - vm_compute. reflexivity.
Defined.

Lemma step_available ev w w' :
  step ev w = Ok w' ->
  Storage.available (storage w) = true ->
  Storage.available (storage w') = true.
Proof.
  unfold step, useLocalStorage_effect.
  destruct (storedValue_changed _).
  - destruct (Storage.setItem _ _ _) as [ls'|e] eqn:Hset; [|discriminate].
    cbn [bind]. intros [= <-] _.
    destruct (setItem_inv _ _ _ _ Hset) as (_ & _ & ->). reflexivity.
  - intros [= <-] Ha. exact Ha.
Qed.

Lemma handle_safe_ids ev st :
  match ev with ClickAdd now => safe_integer now | _ => True end ->
  safe_ids (tasks st) -> safe_ids (tasks (handle ev st)).
Proof.
  unfold safe_ids. intros Hev Hall.
  destruct ev as [value|now|f|i|i]; try exact Hall.
  - destruct (trim (text st)) as [|c r] eqn:E.
    + rewrite handle_add_blank by exact E. exact Hall.
    + rewrite handle_add_accepted by (rewrite E; discriminate). cbn [tasks].
      apply Forall_app. split; [exact Hall|].
      constructor; [exact Hev|constructor].
  - unfold handle. cbn. induction Hall as [|t ts Ht _ IH]; cbn [map].
    + constructor.
    + constructor; [|exact IH]. destruct (Task.id t =? i); exact Ht.
  - unfold handle. cbn. induction Hall as [|t ts Ht _ IH]; cbn [List.filter].
    + constructor.
    + destruct (Task.id t =? i); cbn [negb]; [exact IH|].
      constructor; [exact Ht|exact IH].
Qed.

Lemma mount_inv ls v ls' :
  mount ls = Ok (v, ls') ->
  v = useLocalStorage_initialState ls tasksKey (JArr []) /\
  (exists shown, filteredTasks_of v All = Ok shown) /\
  Storage.setItem ls tasksKey (JSON.stringify v) = Ok ls'.
Proof.
  unfold mount, useLocalStorage_effect.
  destruct (filteredTasks_of _ All) as [shown|e] eqn:Hf; [|discriminate].
  cbn [bind].
  destruct (Storage.setItem _ _ _) as [ls1|e] eqn:Hset; [|discriminate].
  cbn [bind]. intros [= <- <-]. eauto.
Qed.

(** X2: from a state where store and memory agree, with ids that
    JavaScript holds exactly and a clock that gives such readings, after
    any run of events that returns the initialiser of the hook reads
    from the store exactly the tasks on the page, the filter of a first
    render shows them all, and their ids are again such integers: a
    reload starts from the page as it was left. *)
Theorem X2_reload_restores_tasks (evs : list Event) (w w' : World) :
  in_sync w ->
  Storage.available (storage w) = true ->
  safe_ids (tasks (ui w)) ->
  safe_clock evs ->
  run evs w = Ok w' ->
  useLocalStorage_initialState (storage w') tasksKey (JArr [])
    = tasks_value (tasks (ui w')) /\
  filteredTasks_of (tasks_value (tasks (ui w'))) All
    = Ok (map task_value (tasks (ui w'))) /\
  safe_ids (tasks (ui w')).
Proof.
  revert w. induction evs as [|ev evs IH]; intros w Hsync Ha Hsafe Hclock Hrun.
  - injection Hrun as <-. split; [|split; [|exact Hsafe]].
    + unfold useLocalStorage_initialState, Storage.getItem. rewrite Ha.
      cbn [bind]. unfold in_sync, persisted in Hsync. rewrite Hsync.
      rewrite stringify_tasks_truthy, RoundTrip.parse_stringify_tasks.
      reflexivity.
    + rewrite (filteredTasks_of_tasks _ [] All). unfold filteredTasks.
      cbn [filter tasks]. rewrite filter_all. reflexivity.
  - cbn [run] in Hrun.
    destruct (step ev w) as [w1|e] eqn:Hstep; [|discriminate].
    cbn [bind] in Hrun. apply Forall_cons in Hclock as [Hev Hclock].
    apply (IH w1); [| | |exact Hclock|exact Hrun].
    + exact (proj2 (step_in_sync ev w w1 Hstep (or_intror Hsync))).
    + exact (step_available ev w w1 Hstep Ha).
    + rewrite (proj1 (step_in_sync ev w w1 Hstep (or_intror Hsync))).
      exact (handle_safe_ids ev (ui w) Hev Hsafe).
Qed.

Lemma X2_reload_restores_tasks_witness :
  useLocalStorage_initialState
    (Storage.mk
       {[ tasksKey := JSON.stringify
            (tasks_value [Task.mk 1000 (str "a") false]) ]}
       true 5000000 2)
    tasksKey (JArr [])
  = tasks_value [Task.mk 1000 (str "a") false].
Proof.
  assert (H1 : in_sync
                 (mkWorld (Storage.mk {[ tasksKey := str "[]" ]} true 5000000 1)
                    empty_state))
    by (vm_compute; reflexivity).
  assert (H2 : run [Input (str "a"); ClickAdd 1000]
                 (mkWorld (Storage.mk {[ tasksKey := str "[]" ]} true 5000000 1)
                    empty_state)
               = Ok (mkWorld
                       (Storage.mk
                          {[ tasksKey := JSON.stringify
                               (tasks_value [Task.mk 1000 (str "a") false]) ]}
                          true 5000000 2)
                       (mkState [Task.mk 1000 (str "a") false] [] All)))
    by (vm_compute; reflexivity).
  assert (H3 : safe_clock [Input (str "a"); ClickAdd 1000]).
  { repeat constructor. }
  exact (proj1 (X2_reload_restores_tasks _ _ _ H1 eq_refl (Forall_nil_2 _) H3 H2)).
Defined.

Lemma filter_with_all (l : list json) :
  filter_with (fun _ => Ok true) l = Ok l.
Proof.
  induction l as [|x l IH]; [reflexivity|].
  cbn [filter_with bind]. rewrite IH. reflexivity.
Qed.




Lemma initialState_rejected ls key d text e :
  Storage.items ls !! key = Some text -> JSON.parse text = Throw e ->
  useLocalStorage_initialState ls key d = d.
Proof.
  intros Hitem Hparse. unfold useLocalStorage_initialState, Storage.getItem.
  destruct (Storage.available ls); [|reflexivity].
  cbn [bind]. rewrite Hitem. destruct (truthy text); [|reflexivity].
  rewrite Hparse. reflexivity.
Qed.

(** X4: a stored text that [JSON.parse] rejects is lost at the first
    render: the component starts from the empty array and its effect
    replaces the text by that of the empty array. *)
Theorem X4_rejected_text_is_replaced (ls ls' : Storage.t) (v : json)
    (text : jsstring) (e : exn) :
  Storage.items ls !! tasksKey = Some text ->
  JSON.parse text = Throw e ->
  mount ls = Ok (v, ls') ->
  v = JArr [] /\
  persisted ls' = Some (str "[]") /\
  persisted ls' <> Some text.
Proof.
  intros Hitem Hparse Hmount.
  destruct (mount_inv _ _ _ Hmount) as (Hv & _ & Hset).
  rewrite (initialState_rejected _ _ _ _ _ Hitem Hparse) in Hv. subst v.
  split; [reflexivity|].
  pose proof (setItem_stores _ _ _ _ Hset) as Hst.
  split; [exact Hst|].
  unfold persisted. rewrite Hst. intros [= <-]. discriminate.
Qed.

Lemma X4_rejected_text_is_replaced_witness :
  persisted (Storage.mk {[ tasksKey := str "[]" ]} true 5000000 1)
  <> Some (str "{oops").
Proof.
  assert (H1 : Storage.items garbled_storage !! tasksKey = Some (str "{oops"))
    by (vm_compute; reflexivity).
  assert (H2 : JSON.parse (str "{oops") = Throw SyntaxError)
    by (vm_compute; reflexivity).
  assert (H3 : mount garbled_storage
               = Ok (JArr [],
                     Storage.mk {[ tasksKey := str "[]" ]} true 5000000 1))
    by (vm_compute; reflexivity).
  exact (proj2 (proj2 (X4_rejected_text_is_replaced _ _ _ _ _ H1 H2 H3))).
Defined.

Lemma filter_with_raises (cb : json -> result bool) (l : list json) (e : exn) :
  filter_with cb l = Throw e -> Exists (fun x => cb x = Throw e) l.
Proof.
  induction l as [|x l IH]; [discriminate|].
  cbn [filter_with]. destruct (cb x) as [keep|e'] eqn:Hx; cbn [bind].
  - destruct (filter_with cb l) as [r|e'] eqn:Hl; [discriminate|].
    cbn [bind]. intros [= ->]. apply Exists_cons_tl, IH. reflexivity.
  - intros [= ->]. apply Exists_cons_hd. exact Hx.
Qed.

Lemma filter_with_raised (cb : json -> result bool) (l : list json) :
  (forall x e, cb x = Throw e -> e = TypeError) ->
  Exists (fun x => cb x = Throw TypeError) l ->
  filter_with cb l = Throw TypeError.
Proof.
  intros Honly. induction 1 as [x l Hx|x l _ IH]; cbn [filter_with].
  - rewrite Hx. reflexivity.
  - destruct (cb x) as [keep|e] eqn:Hx; cbn [bind].
    + rewrite IH. reflexivity.
    + rewrite (Honly _ _ Hx). reflexivity.
Qed.

Lemma filter_with_sublist (cb : json -> result bool) (l r : list json) :
  filter_with cb l = Ok r -> sublist r l.
Proof.
  revert r. induction l as [|x l IH]; intros r.
  - intros [= <-]. constructor.
  - cbn [filter_with]. destruct (cb x) as [keep|e]; [|discriminate].
    cbn [bind]. destruct (filter_with cb l) as [r'|e]; [|discriminate].
    cbn [bind]. intros [= <-]. destruct keep.
    + apply sublist_skip, IH. reflexivity.
    + apply sublist_cons, IH. reflexivity.
Qed.

Lemma get_raises (o : json) (k : jsstring) (e : exn) :
  get o k = Throw e <-> o = JNull /\ e = TypeError.
Proof.
  destruct o; simpl; split; try discriminate; try (intros [H _]; discriminate).
  - intros [= <-]. auto.
  - intros [_ ->]. reflexivity.
Qed.

(** X5: the expression of [filteredTasks] on a stored value of any
    shape raises nothing but a [TypeError], and raises it exactly when
    the value is not an array, or the filter is not ['All'] and the
    array holds a [null]. *)
Theorem X5_when_the_view_raises (v : json) (f : Filter) :
  (forall e, filteredTasks_of v f = Throw e -> e = TypeError) /\
  (filteredTasks_of v f = Throw TypeError <->
   (forall l, v <> JArr l) \/
   (f <> All /\ exists l, v = JArr l /\ In JNull l)).
Proof.
  set (cb := fun t : json =>
    match f with
    | All => Ok true
    | Active => c <- get t (str "completed") ;;; Ok (negb (ToBoolean c))
    | Completed => c <- get t (str "completed") ;;; Ok (ToBoolean c)
    end).
  assert (Hcb : forall x e, cb x = Throw e <-> f <> All /\ x = JNull /\ e = TypeError).
  { intros x e. unfold cb. destruct f.
    - split; [discriminate|]. intros [H _]. congruence.
    - destruct (get x (str "completed")) as [c|e'] eqn:Hg; cbn [bind].
      + split; [discriminate|]. intros (_ & -> & _). discriminate.
      + apply get_raises in Hg as [-> ->]. split.
        * intros [= <-]. repeat split. discriminate.
        * intros (_ & _ & ->). reflexivity.
    - destruct (get x (str "completed")) as [c|e'] eqn:Hg; cbn [bind].
      + split; [discriminate|]. intros (_ & -> & _). discriminate.
      + apply get_raises in Hg as [-> ->]. split.
        * intros [= <-]. repeat split. discriminate.
        * intros (_ & _ & ->). reflexivity. }
  destruct v as [| b | n | s | l | props];
    try (split; [intros e [= <-]; reflexivity|];
         split; [intros _; left; intros l; discriminate|reflexivity]).
  change (filteredTasks_of (JArr l) f) with (filter_with cb l).
  split.
  - intros e He. apply filter_with_raises, Exists_exists in He as (x & _ & Hx).
    apply Hcb in Hx. tauto.
  - split.
    + intros He. right.
      apply filter_with_raises, Exists_exists in He as (x & Hin & Hx).
      apply Hcb in Hx as (Hf & -> & _).
      split; [exact Hf|]. exists l. split; [reflexivity|].
      apply list_elem_of_In. exact Hin.
    + intros [Hno | (Hf & l' & [= <-] & Hin)]; [exfalso; exact (Hno l eq_refl)|].
      apply filter_with_raised.
      * intros x e Hx. apply Hcb in Hx. tauto.
      * apply Exists_exists. exists JNull. split; [apply list_elem_of_In, Hin|].
        apply Hcb. auto.
Qed.

(** ** The store during a session *)

(** X6: in a run of events that returns, the store took exactly one
    write for each call of [setTasks] and none for typing or for a
    change of filter; every key but the tasks key kept its entry, and
    the quota and the availability are as before. *)
Theorem X6_one_write_per_change (evs : list Event) (w w' : World) :
  run evs w = Ok w' ->
  Storage.writes (storage w')
    = (Storage.writes (storage w) + setTasks_calls evs (ui w))%nat /\
  (forall k, k <> tasksKey ->
     Storage.items (storage w') !! k = Storage.items (storage w) !! k) /\
  Storage.quota (storage w') = Storage.quota (storage w) /\
  Storage.available (storage w') = Storage.available (storage w).
Proof.
  revert w. induction evs as [|ev evs IH]; intros w Hrun.
  - injection Hrun as <-. cbn [setTasks_calls]. rewrite Nat.add_0_r. auto.
  - cbn [run] in Hrun.
    destruct (step ev w) as [w1|e] eqn:Hstep; [|discriminate].
    cbn [bind] in Hrun. destruct (IH w1 Hrun) as (Hw & Hk & Hq & Ha).
    cbn [setTasks_calls]. unfold step, useLocalStorage_effect in Hstep.
    fold (handle ev (ui w)) in Hstep.
    destruct (storedValue_changed (handler ev (ui w))).
    + destruct (Storage.setItem _ _ _) as [ls'|e] eqn:Hset; [|discriminate].
      cbn [bind] in Hstep. injection Hstep as <-.
      destruct (setItem_inv _ _ _ _ Hset) as (Hav & _ & ->).
      cbn [storage ui Storage.writes Storage.items Storage.quota
           Storage.available] in *.
      rewrite Hw, Hq, Ha, Hav. repeat split; try lia.
      intros k Hne. rewrite (Hk k Hne). apply lookup_insert_ne. congruence.
    + injection Hstep as <-. cbn [storage ui] in *.
      rewrite Hw, Hq, Ha. repeat split; try lia. exact Hk.
Qed.

Lemma X6_one_write_per_change_witness :
  Storage.writes
    (Storage.mk
       {[ tasksKey := JSON.stringify
            (tasks_value [Task.mk 1000 (str "a") true]) ]}
       true 5000000 2)
  = (0 + setTasks_calls
           [Input (str "a"); ClickAdd 1000; ClickFilter Active; ClickToggle 1000]
           empty_state)%nat.
Proof.
  assert (H : run [Input (str "a"); ClickAdd 1000; ClickFilter Active;
                   ClickToggle 1000] (mkWorld fresh_storage empty_state)
              = Ok (mkWorld
                      (Storage.mk
                         {[ tasksKey := JSON.stringify
                              (tasks_value [Task.mk 1000 (str "a") true]) ]}
                         true 5000000 2)
                      (mkState [Task.mk 1000 (str "a") true] [] Active)))
    by (vm_compute; reflexivity).
  exact (proj1 (X6_one_write_per_change _ _ _ H)).
Defined.

(** ** How the handlers compose *)

Lemma step_ui ev w w' : step ev w = Ok w' -> ui w' = handle ev (ui w).
Proof.
  unfold step, useLocalStorage_effect. fold (handle ev (ui w)).
  destruct (storedValue_changed _).
  - destruct (Storage.setItem _ _ _); [|discriminate].
    cbn [bind]. intros [= <-]. reflexivity.
  - intros [= <-]. reflexivity.
Qed.

(** X7: pressing Add again without typing adds nothing more: an accepted
    Add empties the input, so the next one finds a blank text and leaves
    the tasks and the store alone. *)
Theorem X7_second_add_is_ignored (n1 n2 : Z) (w w1 : World) :
  step (ClickAdd n1) w = Ok w1 -> step (ClickAdd n2) w1 = Ok w1.
Proof.
  intros Hstep.
  assert (Hblank : trim (text (ui w1)) = []).
  { rewrite (step_ui _ _ _ Hstep).
    destruct (trim (text (ui w))) as [|c r] eqn:E.
    - rewrite handle_add_blank by exact E. exact E.
    - rewrite handle_add_accepted by (rewrite E; discriminate). reflexivity. }
  destruct w1 as [ls st]. unfold step. simpl in *.
  unfold addTask. rewrite Hblank. reflexivity.
Qed.

Lemma X7_second_add_is_ignored_witness :
  step (ClickAdd 1001)
    (mkWorld
       (Storage.mk
          {[ tasksKey := JSON.stringify
               (tasks_value [Task.mk 1000 (str "a") false]) ]}
          true 5000000 1)
       (mkState [Task.mk 1000 (str "a") false] [] All))
  = Ok (mkWorld
          (Storage.mk
             {[ tasksKey := JSON.stringify
                  (tasks_value [Task.mk 1000 (str "a") false]) ]}
             true 5000000 1)
          (mkState [Task.mk 1000 (str "a") false] [] All)).
Proof.
  assert (H : step (ClickAdd 1000)
                (mkWorld fresh_storage (mkState [] (str "a") All))
              = Ok (mkWorld
                      (Storage.mk
                         {[ tasksKey := JSON.stringify
                              (tasks_value [Task.mk 1000 (str "a") false]) ]}
                         true 5000000 1)
                      (mkState [Task.mk 1000 (str "a") false] [] All)))
    by (vm_compute; reflexivity).
  exact (X7_second_add_is_ignored 1000 1001 _ _ H).
Defined.

Lemma tasks_toggle i st :
  tasks (handle (ClickToggle i) st)
  = map (fun t => if Task.id t =? i
                  then Task.mk (Task.id t) (Task.text t) (negb (Task.completed t))
                  else t) (tasks st).
Proof. reflexivity. Qed.

Lemma tasks_delete i st :
  tasks (handle (ClickDelete i) st)
  = List.filter (fun t => negb (Task.id t =? i)) (tasks st).
Proof. reflexivity. Qed.

Lemma labels_toggle i st : labels (handle (ClickToggle i) st) = labels st.
Proof.
  unfold labels. rewrite tasks_toggle, map_map. apply map_ext.
  intros t. destruct (Task.id t =? i); reflexivity.
Qed.

Lemma labels_delete i st :
  labels (handle (ClickDelete i) st)
  = List.filter (fun p => negb (p.1 =? i)) (labels st).
Proof.
  unfold labels. rewrite tasks_delete.
  induction (tasks st) as [|t ts IH]; [reflexivity|].
  cbn [List.filter map fst]. destruct (Task.id t =? i); cbn [negb map];
    rewrite IH; reflexivity.
Qed.

Lemma list_filter_sublist {A} (p : A -> bool) (l : list A) :
  sublist (List.filter p l) l.
Proof.
  induction l as [|a l IH]; simpl; [constructor|].
  destruct (p a); [apply sublist_skip|apply sublist_cons]; exact IH.
Qed.

(** X9: no event edits an id or a text, and none reorders the tasks.
    After an accepted Add the sequence of (id, text) pairs is the old
    one followed by the clock reading and the text typed; after any
    other event it is a subsequence of the old one, the same sequence
    when the event is not a delete. *)
Theorem X9_ids_and_texts_are_kept (ev : Event) (st : State) :
  match ev with
  | ClickAdd now =>
      labels (handle ev st)
      = labels st ++ (if truthy (trim (text st)) then [(now, text st)] else [])
  | ClickDelete i =>
      labels (handle ev st) = List.filter (fun p => negb (p.1 =? i)) (labels st)
      /\ sublist (labels (handle ev st)) (labels st)
  | _ => labels (handle ev st) = labels st
  end.
Proof.
  destruct ev as [value|now|f|i|i]; try reflexivity.
  - destruct (truthy (trim (text st))) eqn:E.
    + apply truthy_true in E. rewrite handle_add_accepted by exact E.
      unfold labels. cbn [tasks]. rewrite map_app. reflexivity.
    + apply truthy_false in E. rewrite handle_add_blank by exact E.
      rewrite app_nil_r. reflexivity.
  - apply labels_toggle.
  - rewrite labels_delete. split; [reflexivity|apply list_filter_sublist].
Qed.

Lemma ids_labels st : ids st = map fst (labels st).
Proof. unfold ids, labels. rewrite map_map. reflexivity. Qed.

Lemma StronglySorted_filter {A} (R : A -> A -> Prop) (p : A -> bool) l :
  StronglySorted R l -> StronglySorted R (List.filter p l).
Proof.
  induction 1 as [|a l Hs IH Hall]; simpl; [constructor|].
  destruct (p a); [|exact IH]. constructor; [exact IH|].
  rewrite Forall_forall in Hall |- *. intros x Hx.
  apply Hall. apply list_elem_of_In. apply list_elem_of_In in Hx.
  apply filter_In in Hx. tauto.
Qed.

Lemma StronglySorted_snoc (l : list Z) (x : Z) :
  StronglySorted Z.lt l -> Forall (fun i => i < x) l ->
  StronglySorted Z.lt (l ++ [x]).
Proof.
  induction 1 as [|a l Hs IH Hall]; intros Hlt; simpl.
  - repeat constructor.
  - apply Forall_cons in Hlt as [Ha Hlt]. constructor; [exact (IH Hlt)|].
    apply Forall_app. split; [exact Hall|]. repeat constructor. exact Ha.
Qed.

(** X8: when the ids increase strictly along the sequence, they still
    do after any event, provided an Add happens at a clock reading above
    every id present.  With a clock that advances the tasks are thus
    always in the order of their creation, with distinct ids. *)
Theorem X8_ids_stay_increasing (ev : Event) (st : State) :
  StronglySorted Z.lt (ids st) ->
  (forall now, ev = ClickAdd now -> Forall (fun i => i < now) (ids st)) ->
  StronglySorted Z.lt (ids (handle ev st)) /\ NoDup (ids (handle ev st)).
Proof.
  intros Hs Hclock.
  assert (Hgoal : StronglySorted Z.lt (ids (handle ev st))).
  { destruct ev as [value|now|f|i|i]; try exact Hs.
    - destruct (trim (text st)) as [|c r] eqn:E.
      + rewrite handle_add_blank by exact E. exact Hs.
      + rewrite handle_add_accepted by (rewrite E; discriminate).
        unfold ids. cbn [tasks]. rewrite map_app.
        apply StronglySorted_snoc; [exact Hs|]. apply (Hclock now eq_refl).
    - rewrite ids_labels, labels_toggle, <- ids_labels. exact Hs.
    - unfold ids. rewrite tasks_delete.
      replace (map Task.id (List.filter (fun t => negb (Task.id t =? i)) (tasks st)))
        with (List.filter (fun j => negb (j =? i)) (map Task.id (tasks st))).
      + apply StronglySorted_filter. exact Hs.
      + induction (tasks st) as [|t ts IH]; [reflexivity|].
        cbn [map List.filter]. destruct (Task.id t =? i); cbn [negb map];
          rewrite IH; reflexivity. }
  split; [exact Hgoal|].
  generalize (ids (handle ev st)) Hgoal. clear.
  induction 1 as [|a l Hs IH Hall]; constructor; [|exact IH].
  intros Hin. rewrite Forall_forall in Hall. specialize (Hall a Hin). lia.
Qed.

Lemma X8_ids_stay_increasing_witness :
  StronglySorted Z.lt
    (ids (handle (ClickAdd 1002) (handle (Input (str "c"))
            (add_all next_tick_calls empty_state)))) /\
  NoDup (ids (handle (ClickAdd 1002) (handle (Input (str "c"))
            (add_all next_tick_calls empty_state)))).
Proof.
  apply (X8_ids_stay_increasing (ClickAdd 1002)
           (handle (Input (str "c")) (add_all next_tick_calls empty_state))).
  - repeat constructor.
  - intros now [= <-]. repeat constructor.
Defined.

(** ** The views *)

Lemma view_eq f st :
  view f st
  = List.filter (fun t =>
      match f with
      | All => true
      | Active => negb (Task.completed t)
      | Completed => Task.completed t
      end) (tasks st).
Proof. reflexivity. Qed.

(** X10: the Active view and the Completed view split the collection:
    every task is in exactly one of them, so together they are a
    rearrangement of the whole sequence and their lengths add up to its
    length. *)
Theorem X10_views_split_the_tasks (st : State) :
  tasks st ≡ₚ view Active st ++ view Completed st /\
  (length (view Active st) + length (view Completed st)
   = length (view All st))%nat /\
  (forall t, t ∈ tasks st ->
     (t ∈ view Active st /\ t ∉ view Completed st) \/
     (t ∈ view Completed st /\ t ∉ view Active st)).
Proof.
  rewrite !view_eq. split; [|split].
  - induction (tasks st) as [|t ts IH]; [reflexivity|].
    cbn [List.filter]. destruct (Task.completed t); cbn [negb].
    + rewrite <- Permutation_middle. constructor. exact IH.
    + cbn [app]. constructor. exact IH.
  - rewrite filter_all. apply (filter_split_length Task.completed).
  - intros t Ht. rewrite !list_elem_of_In, !filter_In.
    apply list_elem_of_In in Ht.
    destruct (Task.completed t); cbn [negb]; [right|left];
      (split; [tauto|intros [_ H]; discriminate]).
Qed.

Lemma filter_map_swap {A} (p : A -> bool) (g : A -> A) (l : list A) :
  (forall a, p (g a) = p a) ->
  List.filter p (map g l) = map g (List.filter p l).
Proof.
  intros Hp. induction l as [|a l IH]; [reflexivity|].
  cbn [map List.filter]. rewrite Hp. destruct (p a); cbn [map]; rewrite IH;
    reflexivity.
Qed.

Lemma filter_filter_swap {A} (p q : A -> bool) (l : list A) :
  List.filter p (List.filter q l) = List.filter q (List.filter p l).
Proof.
  induction l as [|a l IH]; [reflexivity|]. cbn [List.filter].
  destruct (p a) eqn:Hp, (q a) eqn:Hq; cbn [List.filter];
    rewrite ?Hp, ?Hq, IH; reflexivity.
Qed.

(** X11: toggles and deletes can be done in any order: a toggle and a
    delete commute, two toggles commute, two deletes commute; a task
    toggled and then deleted is just deleted. *)
Theorem X11_order_does_not_matter (i j : Z) (st : State) :
  handle (ClickDelete j) (handle (ClickToggle i) st)
    = handle (ClickToggle i) (handle (ClickDelete j) st) /\
  handle (ClickToggle j) (handle (ClickToggle i) st)
    = handle (ClickToggle i) (handle (ClickToggle j) st) /\
  handle (ClickDelete j) (handle (ClickDelete i) st)
    = handle (ClickDelete i) (handle (ClickDelete j) st) /\
  handle (ClickDelete i) (handle (ClickToggle i) st)
    = handle (ClickDelete i) st.
Proof.
  destruct st as [ts input f]. unfold handle. cbn.
  split; [|split; [|split]]; f_equal.
  - apply filter_map_swap. intros t. destruct (Task.id t =? i); reflexivity.
  - rewrite !map_map. apply map_ext. intros t.
    destruct (Task.id t =? i) eqn:Ei, (Task.id t =? j) eqn:Ej; cbn;
      rewrite ?Ei, ?Ej; reflexivity.
  - apply filter_filter_swap.
  - induction ts as [|t ts IH]; [reflexivity|]. cbn [map List.filter].
    destruct (Task.id t =? i) eqn:E; cbn [Task.id]; rewrite E; cbn [negb];
      rewrite IH; reflexivity.
Qed.

(** X12: after a sequence of add calls the collection has grown by the
    number of calls whose trimmed text is not empty; the other calls
    count for nothing. *)
Theorem X12_one_task_per_accepted_call (calls : list (jsstring * Z))
    (st : State) :
  length (tasks (add_all calls st))
  = (length (tasks st) + length (List.filter accepted calls))%nat.
Proof.
  revert st. induction calls as [|[value now] calls IH]; intros st.
  - cbn. lia.
  - change (add_all ((value, now) :: calls) st)
      with (add_all calls (add value now st)).
    rewrite IH. cbn [List.filter]. unfold accepted at 2. cbn [fst].
    destruct (truthy (trim value)) eqn:E.
    + apply truthy_true in E. rewrite add_accepted by exact E.
      cbn [tasks length]. rewrite length_app. cbn [length]. lia.
    + apply truthy_false in E. unfold add.
      rewrite handle_add_blank by exact E. cbn. lia.
Qed.

(** X13: no run of events puts a task with a blank text on the page:
    when every task has a text with a non-empty trimmed form, so has
    every task after the run. *)
Theorem X13_no_blank_task (evs : list Event) (w w' : World) :
  Forall (fun t => trim (Task.text t) <> []) (tasks (ui w)) ->
  run evs w = Ok w' ->
  Forall (fun t => trim (Task.text t) <> []) (tasks (ui w')).
Proof.
  revert w. induction evs as [|ev evs IH]; intros w Hall Hrun.
  - injection Hrun as <-. exact Hall.
  - cbn [run] in Hrun.
    destruct (step ev w) as [w1|e] eqn:Hstep; [|discriminate].
    cbn [bind] in Hrun. apply (IH w1); [|exact Hrun].
    rewrite (step_ui _ _ _ Hstep). apply handle_keeps_nonblank. exact Hall.
Qed.

Lemma X13_no_blank_task_witness :
  Forall (fun t => trim (Task.text t) <> [])
    [Task.mk 1000 (str "a") false].
Proof.
  assert (H : run [Input (str "  "); ClickAdd 999; Input (str "a"); ClickAdd 1000]
                (mkWorld fresh_storage empty_state)
              = Ok (mkWorld
                      (Storage.mk
                         {[ tasksKey := JSON.stringify
                              (tasks_value [Task.mk 1000 (str "a") false]) ]}
                         true 5000000 1)
                      (mkState [Task.mk 1000 (str "a") false] [] All)))
    by (vm_compute; reflexivity).
  exact (X13_no_blank_task _ (mkWorld fresh_storage empty_state) _
           (Forall_nil_2 _) H).
Defined.

(** X14: the Delete button of a card on the page removes that card: a
    task shown under the current filter has the id of a task in the
    collection, so deleting by it shortens the collection, and no view
    of the new state shows a task with that id. *)
Theorem X14_delete_removes_the_card (st : State) (t : Task) :
  t ∈ filteredTasks st ->
  (length (tasks (handle (ClickDelete (Task.id t)) st)) < length (tasks st))%nat /\
  (forall f u, u ∈ view f (handle (ClickDelete (Task.id t)) st) ->
     Task.id u <> Task.id t).
Proof.
  intros Ht. split.
  - assert (Hin : In t (tasks st)).
    { apply list_elem_of_In in Ht. unfold filteredTasks in Ht.
      apply filter_In in Ht. tauto. }
    rewrite tasks_delete.
    pose proof (filter_split_length (fun u => Task.id u =? Task.id t) (tasks st))
      as Hlen.
    fold (carrying (Task.id t) st) in Hlen.
    assert (0 < length (carrying (Task.id t) st))%nat; [|lia].
    assert (Hm : In t (carrying (Task.id t) st)).
    { apply filter_In. split; [exact Hin|apply Z.eqb_refl]. }
    destruct (carrying (Task.id t) st); [destruct Hm|simpl; lia].
  - intros f u Hu. rewrite view_eq, tasks_delete in Hu.
    apply list_elem_of_In, filter_In in Hu as [Hu _].
    apply filter_In in Hu as [_ Hu].
    apply negb_true_iff, Z.eqb_neq in Hu. exact Hu.
Qed.

Lemma X14_delete_removes_the_card_witness :
  (length (tasks (handle (ClickDelete 1001) (add_all next_tick_calls empty_state)))
   < length (tasks (add_all next_tick_calls empty_state)))%nat.
Proof.
  apply (X14_delete_removes_the_card (add_all next_tick_calls empty_state)
           (Task.mk 1001 (str "b") false)).
  right. left.
Defined.

(** X15: the Complete button moves a card to the Completed view and the
    Undo button moves it back: after [toggleTask] with the id of a task,
    the task with the negated flag is shown under the filter that
    matches its new flag and not under the other one. *)
Theorem X15_toggle_moves_the_card (st : State) (t : Task) :
  t ∈ tasks st ->
  let t' := Task.mk (Task.id t) (Task.text t) (negb (Task.completed t)) in
  let st' := handle (ClickToggle (Task.id t)) st in
  t' ∈ view (if Task.completed t then Active else Completed) st' /\
  t' ∉ view (if Task.completed t then Completed else Active) st'.
Proof.
  intros Ht t' st'. rewrite !view_eq. unfold st'. rewrite tasks_toggle.
  rewrite !list_elem_of_In, !filter_In. split.
  - split.
    + apply in_map_iff. exists t. rewrite Z.eqb_refl. split; [reflexivity|].
      apply list_elem_of_In. exact Ht.
    + unfold t'. destruct (Task.completed t); reflexivity.
  - intros [_ H]. unfold t' in H. destruct (Task.completed t); discriminate.
Qed.

Lemma X15_toggle_moves_the_card_witness :
  Task.mk 1000 (str "a") true
    ∈ view Completed (handle (ClickToggle 1000) (add_all next_tick_calls empty_state)).
Proof.
  apply (X15_toggle_moves_the_card (add_all next_tick_calls empty_state)
           (Task.mk 1000 (str "a") false)).
  left.
Defined.

(** ** The theme *)

(** X16: the theme alternates: after an even number of clicks on the
    theme button the class is ['light'], after an odd number ['dark'],
    and never anything else. *)
Theorem X16_theme_alternates (n : nat) :
  ThemeContext.className n
  = if Nat.even n then str "light" else str "dark".
Proof.
  unfold ThemeContext.className.
  induction n as [|n IH]; [reflexivity|].
  rewrite Nat.iter_succ, IH, Nat.even_succ, <- Nat.negb_even.
  destruct (Nat.even n); reflexivity.
Qed.

(** ** The search page *)

Lemma startsWith_spec (s q : jsstring) :
  startsWith s q = true <-> exists b, s = q ++ b.
Proof.
  revert q. induction s as [|d s IH]; intros [|c q]; cbn [startsWith].
  - split; [intros _; exists []; reflexivity|reflexivity].
  - split; [discriminate|]. intros [b Hb]. discriminate.
  - split; [intros _; exists (d :: s); reflexivity|reflexivity].
  - rewrite andb_true_iff, N.eqb_eq, IH. split.
    + intros [-> [b ->]]. exists b. reflexivity.
    + intros [b [= <- ->]]. split; [reflexivity|]. exists b. reflexivity.
Qed.

Lemma includes_spec (s q : jsstring) :
  includes s q = true <-> exists a b, s = a ++ q ++ b.
Proof.
  induction s as [|d s IH]; cbn [includes].
  - rewrite orb_false_r, startsWith_spec. split.
    + intros [b Hb]. exists [], b. exact Hb.
    + intros (a & b & H). destruct a; [|discriminate]. exists b. exact H.
  - rewrite orb_true_iff, startsWith_spec, IH. split.
    + intros [[b Hb] | (a & b & ->)].
      * exists [], b. exact Hb.
      * exists (d :: a), b. reflexivity.
    + intros (a & b & H). destruct a as [|x a].
      * left. exists b. exact H.
      * right. injection H as _ ->. exists a, b. reflexivity.
Qed.

Lemma includes_nil (s : jsstring) : includes s [] = true.
Proof. apply includes_spec. exists [], s. reflexivity. Qed.

Lemma includes_trans (s q r : jsstring) :
  includes s q = true -> includes q r = true -> includes s r = true.
Proof.
  rewrite !includes_spec. intros (a & b & ->) (a' & b' & ->).
  exists (a ++ a'), (b' ++ b). rewrite <- !app_assoc. reflexivity.
Qed.

Section SearchPage.

Variable toLowerCase : jsstring -> jsstring.

Lemma matches_cases (q : jsstring) (item : json) :
  (ApiData.has_title item /\
   exists b, ApiData.matches toLowerCase q item = Ok b) \/
  (~ ApiData.has_title item /\
   ApiData.matches toLowerCase q item = Throw TypeError).
Proof.
  unfold ApiData.matches, ApiData.has_title.
  destruct (get item (str "title")) as [[[| | |s| |]|]|e] eqn:Hg; cbn [bind];
    try (right; split; [intros [s' [=]]|reflexivity]).
  - left. split; eauto.
  - right. apply get_raises in Hg as [_ ->]. split; [intros [s' [=]]|reflexivity].
Qed.

Lemma filter_with_titled (q : jsstring) (l : list json) :
  Forall ApiData.has_title l ->
  exists shown, filter_with (ApiData.matches toLowerCase q) l = Ok shown.
Proof.
  induction 1 as [|x l Hx _ [shown IH]]; [exists []; reflexivity|].
  destruct (matches_cases q x) as [[_ [b Hb]]|[Hno _]]; [|tauto].
  cbn [filter_with]. rewrite Hb, IH. cbn [bind]. eauto.
Qed.

Lemma filter_with_untitled (q : jsstring) (l : list json) :
  ~ Forall ApiData.has_title l ->
  filter_with (ApiData.matches toLowerCase q) l = Throw TypeError.
Proof.
  intros Hno. apply filter_with_raised.
  - intros x e Hx. destruct (matches_cases q x) as [[_ [b Hb]]|[_ Ht]];
      congruence.
  - induction l as [|x l IH]; [exfalso; apply Hno; constructor|].
    destruct (matches_cases q x) as [[Hx _]|[_ Ht]].
    + apply Exists_cons_tl, IH. intros Hl. apply Hno. constructor; assumption.
    + apply Exists_cons_hd. exact Ht.
Qed.

(** X17: the filter of the search page raises exactly when [data] is
    not an array of objects with a string [title], and then a
    [TypeError], whatever the query; on such an array it returns a list.
    The component filters before it looks at [loading] and [error], so
    on any other data its body raises the [TypeError] in every state. *)
Theorem X17_when_the_page_raises (st : ApiData.State) :
  (forall e, ApiData.filtered toLowerCase st = Throw e -> e = TypeError) /\
  (ApiData.filtered toLowerCase st = Throw TypeError
   <-> ~ ApiData.well_formed (ApiData.data st)) /\
  (ApiData.well_formed (ApiData.data st) ->
   exists shown, ApiData.filtered toLowerCase st = Ok shown) /\
  (~ ApiData.well_formed (ApiData.data st) ->
   ApiData.render toLowerCase st = Throw TypeError).
Proof.
  assert (Hmain :
    (ApiData.well_formed (ApiData.data st) /\
     exists shown, ApiData.filtered toLowerCase st = Ok shown) \/
    (~ ApiData.well_formed (ApiData.data st) /\
     ApiData.filtered toLowerCase st = Throw TypeError)).
  { unfold ApiData.filtered, ApiData.well_formed.
    destruct (ApiData.data st) as [| b | n | s | l | props];
      try (right; split; [intros (l & [=] & _)|reflexivity]).
    assert (Hdec : Forall ApiData.has_title l \/ ~ Forall ApiData.has_title l).
    { induction l as [|x l [IH|IH]].
      - left. constructor.
      - destruct (matches_cases [] x) as [[Hx _]|[Hx _]].
        + left. constructor; assumption.
        + right. intros H. apply Forall_cons in H. tauto.
      - right. intros H. apply Forall_cons in H. tauto. }
    destruct Hdec as [Hall|Hno].
    - left. split; [eauto|]. exact (filter_with_titled (ApiData.query st) l Hall).
    - right. split; [intros (l' & [= <-] & Hall); tauto|].
      exact (filter_with_untitled _ _ Hno). }
  destruct Hmain as [[Hwf [shown Hok]]|[Hno Hthrow]].
  - split; [rewrite Hok; discriminate|]. split; [|split].
    + rewrite Hok. split; [discriminate|tauto].
    + eauto.
    + tauto.
  - split; [rewrite Hthrow; intros e [= <-]; reflexivity|]. split; [|split].
    + tauto.
    + tauto.
    + intros _. unfold ApiData.render. rewrite Hthrow. reflexivity.
Qed.



Lemma filter_with_narrower (cb cb' : json -> result bool) (l r r' : list json) :
  (forall x, cb' x = Ok true -> cb x = Ok true) ->
  filter_with cb l = Ok r -> filter_with cb' l = Ok r' -> sublist r' r.
Proof.
  intros Himp. revert r r'. induction l as [|x l IH]; intros r r'.
  - intros [= <-] [= <-]. constructor.
  - cbn [filter_with].
    destruct (cb x) as [k|e] eqn:Hk; [|discriminate].
    destruct (cb' x) as [k'|e] eqn:Hk'; [|discriminate]. cbn [bind].
    destruct (filter_with cb l) as [s|e]; [|discriminate].
    destruct (filter_with cb' l) as [s'|e]; [|discriminate]. cbn [bind].
    intros [= <-] [= <-]. specialize (IH s s' eq_refl eq_refl).
    destruct k' eqn:Ek'.
    + rewrite (Himp x Hk') in Hk. injection Hk as <-.
      apply sublist_skip, IH.
    + destruct k; [apply sublist_cons|]; exact IH.
Qed.

(** X20: a query that contains another one, both in lower case, shows
    no post that the other does not show: typing more letters only
    narrows the list, and keeps its order. *)
Theorem X20_longer_query_narrows (st : ApiData.State) (q q' : jsstring)
    (shown shown' : list json) :
  includes (toLowerCase q') (toLowerCase q) = true ->
  ApiData.filtered toLowerCase (ApiData.setQuery q st) = Ok shown ->
  ApiData.filtered toLowerCase (ApiData.setQuery q' st) = Ok shown' ->
  sublist shown' shown /\ sublist shown match ApiData.data st with
                                        | JArr l => l
                                        | _ => []
                                        end.
Proof.
  intros Hinc. unfold ApiData.filtered. cbn [ApiData.setQuery ApiData.data
    ApiData.query].
  destruct (ApiData.data st) as [| | | | l |]; try discriminate.
  intros Hq Hq'. split; [|exact (filter_with_sublist _ _ _ Hq)].
  refine (filter_with_narrower _ _ l shown shown' _ Hq Hq').
  intros x. unfold ApiData.matches.
  destruct (get x (str "title")) as [[[| | |s| |]|]|e]; cbn [bind];
    try discriminate.
  intros [= Hs]. rewrite (includes_trans _ _ _ Hs Hinc). reflexivity.
Qed.

Hypothesis toLowerCase_empty : toLowerCase [] = [].

Lemma filter_with_keep_all (l : list json) :
  Forall ApiData.has_title l ->
  filter_with (ApiData.matches toLowerCase []) l = Ok l.
Proof.
  induction 1 as [|x l [s Hx] _ IH]; [reflexivity|].
  cbn [filter_with]. unfold ApiData.matches at 1. rewrite Hx. cbn [bind].
  rewrite toLowerCase_empty, includes_nil, IH. reflexivity.
Qed.

(** X19: when the request has delivered an array of objects with string
    titles and nothing has been typed, the filter keeps every one of
    them, in the order received. *)
Theorem X19_empty_query_keeps_everything (l : list json) :
  Forall ApiData.has_title l ->
  ApiData.filtered toLowerCase
    (ApiData.settle (ApiData.Resolved (JArr l)) ApiData.initial)
  = Ok l.
Proof.
  intros Hall. unfold ApiData.filtered. cbn.
  exact (filter_with_keep_all l Hall).
Qed.

End SearchPage.

Lemma X19_empty_query_keeps_everything_witness :
  ApiData.filtered ascii_lower
    (ApiData.settle (ApiData.Resolved (JArr [post "Qui est"; post "Ea"]))
       ApiData.initial)
  = Ok [post "Qui est"; post "Ea"].
Proof.
  apply (X19_empty_query_keeps_everything ascii_lower eq_refl
           [post "Qui est"; post "Ea"]).
  repeat constructor; eexists; reflexivity.
Defined.

Lemma X20_longer_query_narrows_witness :
  sublist [post "Qui est"] [post "Qui est"; post "Ea"].
Proof.
  refine (proj1 (X20_longer_query_narrows ascii_lower
           (ApiData.settle (ApiData.Resolved
              (JArr [post "Qui est"; post "Ea"; post "Non"])) ApiData.initial)
           (str "E") (str "es") _ _ _ _ _)); reflexivity.
Defined.
